(** * people_link-social: the post list/create view and the like toggle

    A shallow embedding of [views.py]: the two request handlers
    [PostListCreateView] and [LikePostView], over an explicit model of the
    three collaborators they talk to (the ORM tables, the key/value cache
    with expiry, and the permission check that runs before a handler).

    Handlers are written in a small state-and-exception monad [M], so that
    a Python exception leaving a handler is a value ([Raise e]) and every
    storage or cache call leaves an entry in a trace. *)

From Stdlib Require Import ZArith Lia Permutation.
From stdpp Require Import gmap strings list fin_maps.

Local Open Scope string_scope.
Local Open Scope list_scope.

(** ** Data model *)

Module Model.

(** [request.user]: the anonymous user or a stored user, by primary key. *)
Inductive User :=
| AnonymousUser
| AuthUser (pk : Z).

Definition is_authenticated (u : User) : bool :=
  match u with
  | AnonymousUser => false
  | AuthUser _ => true
  end.

Inductive Method := GET | HEAD | OPTIONS | POST.

Record Request := mkRequest {
  method : Method;
  user : User
}.

(** The rows of [models.py].  The view names [Post.id], [Post.user],
    [Like.user] and [Like.post]; the remaining columns follow the data
    model section of the specification. *)
Record Post := mkPost {
  post_id : Z;
  post_user : Z;
  post_content : string;
  post_created_at : Z
}.

Record Like := mkLike {
  like_id : Z;
  like_user : Z;
  like_post : Z
}.

Record Comment := mkComment {
  comment_id : Z;
  comment_post : Z;
  comment_user : Z;
  comment_content : string
}.

(** One element of the evaluated queryset: a post together with its
    prefetched [like_set] and [comment_set]. *)
Record PostRow := mkPostRow {
  row_post : Post;
  row_like_set : list Like;
  row_comment_set : list Comment
}.

(** The persistent store: three tables in storage order and the two
    auto-increment sequences the fragment draws primary keys from. *)
Record Store := mkStore {
  posts : list Post;
  likes : list Like;
  comments : list Comment;
  post_seq : Z;
  like_seq : Z
}.

(** A cache entry: the stored value and the instant it expires at. *)
Record CacheEntry := mkCacheEntry {
  entry_value : list PostRow;
  entry_expires : Z
}.

Inductive Table := TPost | TLike | TComment.

(** What a handler did to its collaborators, in order. *)
Inductive Event :=
| CacheGet (key : string)
| CacheSet (key : string) (timeout : Z)
| CacheDelete (key : string)
| DbSelect (t : Table)
| DbInsert (t : Table)
| DbDelete (t : Table).

Record World := mkWorld {
  db : Store;
  cache : gmap string CacheEntry;
  now : Z;
  trace : list Event
}.

Inductive Exn :=
| DoesNotExist (t : Table)
| MultipleObjectsReturned (t : Table)
| ValueError
| DatabaseError
| Http404
| PermissionDenied.

Inductive Result (A : Type) :=
| Ok (a : A)
| Raise (e : Exn).
Arguments Ok {A} a.
Arguments Raise {A} e.

(** The body of the response of [LikePostView.post]: [{'liked': b}]. *)
Record Response := mkResponse { liked : bool }.

(** The validated payload of a [PostSerializer]. *)
Record PostSerializer := mkPostSerializer { validated_content : string }.

(** What [models.py] and the database decide and the view does not: the
    order in which [Post.objects.all()] yields rows (the view has no
    [order_by]; it is the model's [Meta.ordering], or storage order), and
    which rows the [Post] table accepts on insert. *)
Class Schema := mkSchema {
  ordering : list Post -> list Post;
  ordering_perm : forall l, Permutation (ordering l) l;
  db_accepts : Post -> bool
}.

End Model.
Export Model.

(** ** The handler monad *)

Module Monad.

Definition M (A : Type) : Type := World -> Result A * World.

Definition ret {A} (a : A) : M A := fun w => (Ok a, w).

Definition raise {A} (e : Exn) : M A := fun w => (Raise e, w).

Definition bind {A B} (m : M A) (k : A -> M B) : M B :=
  fun w =>
    match m w with
    | (Ok a, w') => k a w'
    | (Raise e, w') => (Raise e, w')
    end.

Definition emit (e : Event) : M unit :=
  fun w => (Ok tt, mkWorld (db w) (cache w) (now w) (trace w ++ [e])).

Definition get_db : M Store := fun w => (Ok (db w), w).

Definition put_db (s : Store) : M unit :=
  fun w => (Ok tt, mkWorld s (cache w) (now w) (trace w)).

Definition get_cache : M (gmap string CacheEntry) := fun w => (Ok (cache w), w).

Definition put_cache (c : gmap string CacheEntry) : M unit :=
  fun w => (Ok tt, mkWorld (db w) c (now w) (trace w)).

Definition get_now : M Z := fun w => (Ok (now w), w).

End Monad.
Export Monad.

Notation "'let*' x ':=' c 'in' k" := (bind c (fun x => k))
  (at level 10, x name, c at level 100, k at level 200).
Notation "c ';;;' k" := (bind c (fun _ => k))
  (at level 100, k at level 200, right associativity).

(** ** The collaborators *)

(** [django.core.cache.cache]: a key/value store with expiry. *)
Module Cache.

(** [cache.get(key)]: the value, or [None] when the key is absent or its
    entry has expired. *)
Definition cache_get (key : string) : M (option (list PostRow)) :=
  emit (CacheGet key) ;;;
  let* c := get_cache in
  let* t := get_now in
  match c !! key with
  | Some e => if (t <? entry_expires e)%Z then ret (Some (entry_value e)) else ret None
  | None => ret None
  end.

(** [cache.set(key, value, timeout)]. *)
Definition cache_set (key : string) (value : list PostRow) (timeout : Z) : M unit :=
  emit (CacheSet key timeout) ;;;
  let* c := get_cache in
  let* t := get_now in
  put_cache (<[key := mkCacheEntry value (t + timeout)]> c).

(** [cache.delete(key)]. *)
Definition cache_delete (key : string) : M unit :=
  emit (CacheDelete key) ;;;
  let* c := get_cache in
  put_cache (delete key c).

End Cache.
Export Cache.

(** The ORM calls the view makes, on the tables of [Store]. *)
Module ORM.

Section WithSchema.
Context {Sch : Schema}.

Definition like_set (s : Store) (p : Post) : list Like :=
  List.filter (fun l => (like_post l =? post_id p)%Z) (likes s).

Definition comment_set (s : Store) (p : Post) : list Comment :=
  List.filter (fun c => (comment_post c =? post_id p)%Z) (comments s).

Definition prefetch (s : Store) (p : Post) : PostRow :=
  mkPostRow p (like_set s p) (comment_set s p).

(** [Post.objects.all().select_related('user')
      .prefetch_related('like_set', 'comment_set')[:n]], evaluated.
    [select_related] only joins the author in the same query and does not
    change which posts come back. *)
Definition Post_objects_all_prefetched (n : nat) : M (list PostRow) :=
  emit (DbSelect TPost) ;;;
  let* s := get_db in
  ret (map (prefetch s) (take n (ordering (posts s)))).

(** [Post.objects.get(id=post_id)]. *)
Definition Post_objects_get (id : Z) : M Post :=
  emit (DbSelect TPost) ;;;
  let* s := get_db in
  match List.filter (fun p => (post_id p =? id)%Z) (posts s) with
  | [] => raise (DoesNotExist TPost)
  | [p] => ret p
  | _ :: _ :: _ => raise (MultipleObjectsReturned TPost)
  end.

(** The filter [user=u, post=p] on the [Like] table. *)
Definition like_matches (u pid : Z) (l : Like) : bool :=
  (like_user l =? u)%Z && (like_post l =? pid)%Z.

(** [Like.objects.create(user=u, post=p)]: the next key of the sequence. *)
Definition Like_objects_create (u : Z) (p : Post) : M Like :=
  emit (DbInsert TLike) ;;;
  let* s := get_db in
  let l := mkLike (like_seq s) u (post_id p) in
  put_db (mkStore (posts s) (likes s ++ [l]) (comments s) (post_seq s) (like_seq s + 1)) ;;;
  ret l.

(** [Like.objects.get_or_create(user=u, post=p)]: [get], and [create] when
    [get] finds nothing.  A stored user is required as the lookup value. *)
Definition Like_objects_get_or_create (u : User) (p : Post) : M (Like * bool) :=
  match u with
  | AnonymousUser => raise ValueError
  | AuthUser uid =>
      emit (DbSelect TLike) ;;;
      let* s := get_db in
      match List.filter (like_matches uid (post_id p)) (likes s) with
      | [] => let* l := Like_objects_create uid p in ret (l, true)
      | [l] => ret (l, false)
      | _ :: _ :: _ => raise (MultipleObjectsReturned TLike)
      end
  end.

(** [like.delete()]: removes the row with that primary key. *)
Definition Like_delete (l : Like) : M unit :=
  emit (DbDelete TLike) ;;;
  let* s := get_db in
  put_db (mkStore (posts s)
                  (List.filter (fun l' => negb (like_id l' =? like_id l)%Z) (likes s))
                  (comments s) (post_seq s) (like_seq s)).

(** [serializer.save(user=u)] of a [PostSerializer]: inserts a new post
    attributed to [u], or raises when the table refuses the row. *)
Definition serializer_save (ser : PostSerializer) (u : User) : M Post :=
  match u with
  | AnonymousUser => raise ValueError
  | AuthUser uid =>
      emit (DbInsert TPost) ;;;
      let* s := get_db in
      let* t := get_now in
      let p := mkPost (post_seq s) uid (validated_content ser) t in
      if db_accepts p then
        put_db (mkStore (posts s ++ [p]) (likes s) (comments s) (post_seq s + 1) (like_seq s)) ;;;
        ret p
      else raise DatabaseError
  end.

End WithSchema.
End ORM.
Export ORM.

(** ** The views *)

Module Views.

Section WithSchema.
Context {Sch : Schema}.

(** Python truthiness of what [cache.get] returned: [None] and the empty
    sequence are false. *)
Definition truthy (posts : option (list PostRow)) : bool :=
  match posts with
  | Some (_ :: _) => true
  | _ => false
  end.

Definition SAFE_METHODS (m : Method) : bool :=
  match m with
  | GET | HEAD | OPTIONS => true
  | POST => false
  end.

(** [permissions.IsAuthenticatedOrReadOnly]. *)
Definition IsAuthenticatedOrReadOnly (r : Request) : bool :=
  SAFE_METHODS (method r) || is_authenticated (user r).

(** [permissions.IsAuthenticated]. *)
Definition IsAuthenticated (r : Request) : bool :=
  is_authenticated (user r).

(** [PostListCreateView.get_queryset]. *)
Definition get_queryset : M (list PostRow) :=
  let cache_key := "recent_posts" in
  let* posts := cache_get cache_key in
  if negb (truthy posts) then
    let* posts := Post_objects_all_prefetched 20 in
    cache_set cache_key posts 300 ;;;
    ret posts
  else
    ret (default [] posts).

(** [PostListCreateView.perform_create]. *)
Definition perform_create (serializer : PostSerializer) (request : Request) : M unit :=
  serializer_save serializer (user request) ;;;
  cache_delete "recent_posts".

(** [LikePostView.post]. *)
Definition post (request : Request) (post_id : Z) : M Response :=
  let* post := Post_objects_get post_id in
  let* lc := Like_objects_get_or_create (user request) post in
  let '(like, created) := lc in
  if negb created then
    Like_delete like ;;;
    ret (mkResponse false)
  else
    ret (mkResponse true).

End WithSchema.

(** The framework's [exception_handler]: the status of the exceptions it
    turns into a response; any other exception leaves the view unhandled
    and the client is answered with a server error. *)
Definition exception_handler (e : Exn) : option Z :=
  match e with
  | Http404 => Some 404%Z
  | PermissionDenied => Some 403%Z
  | _ => None
  end.

Definition status_code {A} (r : Result A) : Z :=
  match r with
  | Ok _ => 200%Z
  | Raise e => default 500%Z (exception_handler e)
  end.

Definition is_client_error (code : Z) : bool :=
  (400 <=? code)%Z && (code <? 500)%Z.

End Views.
Export Views.

(** ** Running the system *)

Module System.

Definition eval {A} (m : M A) (w : World) : Result A := (m w).1.
Definition exec {A} (m : M A) (w : World) : World := (m w).2.

(** A fresh deployment at instant [t]: empty tables, empty cache. *)
Definition fresh (t : Z) : World :=
  mkWorld (mkStore [] [] [] 1 1) ∅ t [].

(** The clock moves forward between requests. *)
Definition advance (d : Z) (w : World) : World :=
  mkWorld (db w) (cache w) (now w + d) (trace w).

(** [w] with [evs] appended to its trace. *)
Definition logged (evs : list Event) (w : World) : World :=
  mkWorld (db w) (cache w) (now w) (trace w ++ evs).

(** [s] with its Like table and sequence replaced. *)
Definition with_likes (ls : list Like) (seq : Z) (s : Store) : Store :=
  mkStore (posts s) ls (comments s) (post_seq s) seq.

(** The post that [serializer.save(user=uid)] inserts in [w]. *)
Definition new_post (ser : PostSerializer) (uid : Z) (w : World) : Post :=
  mkPost (post_seq (db w)) uid (validated_content ser) (now w).

(** [s] with [p] appended to its Post table. *)
Definition with_post (p : Post) (s : Store) : Store :=
  mkStore (posts s ++ [p]) (likes s) (comments s) (post_seq s + 1) (like_seq s).

Section WithSchema.
Context {Sch : Schema}.

(** What the store query of the list view yields on store [s]. *)
Definition recent (s : Store) : list PostRow :=
  map (prefetch s) (take 20 (ordering (posts s))).

(** One request served to completion, or time passing.  A handler runs
    only after the permission classes of its view let the request in;
    listing is a safe method and is open to everyone. *)
Inductive step : World -> World -> Prop :=
| step_list w :
    step w (exec get_queryset w)
| step_create ser r w :
    method r = POST ->
    IsAuthenticatedOrReadOnly r = true ->
    step w (exec (perform_create ser r) w)
| step_like r pid w :
    IsAuthenticated r = true ->
    step w (exec (post r pid) w)
| step_tick d w :
    (0 <= d)%Z ->
    step w (advance d w).

Inductive reachable : World -> Prop :=
| reach_fresh t : reachable (fresh t)
| reach_step w w' : reachable w -> step w w' -> reachable w'.

End WithSchema.

(** The Like records of the pair [(u, pid)]. *)
Definition likes_of (u pid : Z) (s : Store) : list Like :=
  List.filter (like_matches u pid) (likes s).

(** At most one Like record per (user, post) pair. *)
Definition like_unique (s : Store) : Prop :=
  forall u pid, (length (likes_of u pid s) <= 1)%nat.

(** Primary keys are unique and were drawn from the sequences. *)
Record keys_ok (s : Store) : Prop := mk_keys_ok {
  post_ids_nodup : NoDup (map post_id (posts s));
  like_ids_nodup : NoDup (map like_id (likes s));
  post_ids_below : Forall (fun p => (post_id p < post_seq s)%Z) (posts s);
  like_ids_below : Forall (fun l => (like_id l < like_seq s)%Z) (likes s)
}.

Definition store_ok (s : Store) : Prop := keys_ok s /\ like_unique s.

(** The value [cache.get(key)] would return in [w]. *)
Definition live (key : string) (w : World) : option (list PostRow) :=
  match cache w !! key with
  | Some e => if (now w <? entry_expires e)%Z then Some (entry_value e) else None
  | None => None
  end.

(** Every cached list is one the list view has put there. *)
Definition cache_ok (w : World) : Prop :=
  forall key e, cache w !! key = Some e -> (length (entry_value e) <= 20)%nat.

(** [pid] resolves to a stored post. *)
Definition post_exists (pid : Z) (s : Store) : Prop :=
  exists p, p ∈ posts s /\ post_id p = pid.

(** The events that are calls to the persistent store. *)
Definition is_db_event (e : Event) : bool :=
  match e with
  | DbSelect _ | DbInsert _ | DbDelete _ => true
  | _ => false
  end.

(** What one call of [LikePostView.post] can do, on any world: it leaves
    everything but the Like table alone, and the Like table either stays
    (an exception left the handler), gains the pair's first record, or
    loses the pair's only record. *)
Inductive toggled (r : Request) (pid : Z) (w : World) : Result Response -> World -> Prop :=
| toggled_raise e w' :
    db w' = db w ->
    toggled r pid w (Raise e) w'
| toggled_on uid w' :
    user r = AuthUser uid ->
    post_exists pid (db w) ->
    likes_of uid pid (db w) = [] ->
    db w' = with_likes (likes (db w) ++ [mkLike (like_seq (db w)) uid pid])
                       (like_seq (db w) + 1) (db w) ->
    toggled r pid w (Ok (mkResponse true)) w'
| toggled_off uid l w' :
    user r = AuthUser uid ->
    post_exists pid (db w) ->
    likes_of uid pid (db w) = [l] ->
    db w' = with_likes (List.filter (fun l' => negb (like_id l' =? like_id l)%Z) (likes (db w)))
                       (like_seq (db w)) (db w) ->
    toggled r pid w (Ok (mkResponse false)) w'.

(** What holds between requests. *)
Definition inv (w : World) : Prop := store_ok (db w) /\ cache_ok w.

End System.
Export System.

(** ** Two concrete schemas *)

Module Schemas.

(** No [Meta.ordering]: rows come back in storage order, and the table
    accepts every row. *)
Definition storage_order : Schema :=
  mkSchema (fun l => l) (fun l => Permutation_refl l) (fun _ => true).

(** Newest first, and a table that refuses blank content. *)
Definition newest_first : Schema :=
  mkSchema (@rev Post) (fun l => Permutation_sym (Permutation_rev l))
           (fun p => negb (String.eqb (post_content p) "")).

(** Modelled from the spec: the order in which [Post.objects.all()]
    yields rows, that is the [Meta.ordering] of [models.py], which is not
    in the fragment.  The specification has the list "truncated to the 20
    most-recently-ordered records": the post stored last comes first. *)
Definition most_recent_first (Sch : Schema) : Prop :=
  forall l p, ordering (l ++ [p]) = p :: ordering l.

End Schemas.

(** ** Concrete worlds used in the examples below *)

Module Scenario.
Import Schemas.

Definition alice : Request := mkRequest POST (AuthUser 1).
Definition bob : Request := mkRequest POST (AuthUser 2).
Definition hello : PostSerializer := mkPostSerializer "hello".

(** [n] posts created one after the other. *)
Fixpoint posted {Sch : Schema} (n : nat) (w : World) : World :=
  match n with
  | O => w
  | S n => exec (perform_create hello alice) (posted n w)
  end.

(** Alice has posted once. *)
Definition one_post : World := posted (Sch := storage_order) 1 (fresh 0).

(** Alice has posted once and Bob likes the post. *)
Definition one_like : World := exec (post bob 1) one_post.

(** Alice has posted once and the list has been read since. *)
Definition warm : World := exec (get_queryset (Sch := storage_order)) one_post.

(** Twenty posts, under storage order. *)
Definition crowded : World := posted (Sch := storage_order) 20 (fresh 0).

(** Twenty posts, under the newest-first ordering. *)
Definition crowded_newest : World := posted (Sch := newest_first) 20 (fresh 0).

End Scenario.
Import Scenario.

(** ** Repeated calls and further invariants *)

Module Sequences.

(** [n] consecutive calls of [LikePostView.post] with the same request
    and the same [post_id]. *)
Fixpoint toggles (n : nat) (r : Request) (pid : Z) (w : World) : World :=
  match n with
  | O => w
  | S n => exec (post r pid) (toggles n r pid w)
  end.

(** Every Like record refers to a stored post. *)
Definition likes_refer (s : Store) : Prop :=
  Forall (fun l => post_exists (like_post l) s) (likes s).

(** No cache entry outlives the timeout the list view sets. *)
Definition cache_expiring (w : World) : Prop :=
  forall key e, cache w !! key = Some e -> (entry_expires e <= now w + 300)%Z.

Section WithSchema.
Context {Sch : Schema}.

(** The posts of the cached list are the posts the store query would
    yield now. *)
Definition cache_current (w : World) : Prop :=
  forall e, cache w !! "recent_posts" = Some e ->
            map row_post (entry_value e) = take 20 (ordering (posts (db w))).

(** The world a cache miss of the list view leads to. *)
Definition refilled (w : World) : World :=
  mkWorld (db w)
          (<["recent_posts" := mkCacheEntry (recent (db w)) (now w + 300)]> (cache w))
          (now w)
          (trace w ++ [CacheGet "recent_posts"; DbSelect TPost; CacheSet "recent_posts" 300]).

End WithSchema.
End Sequences.
Import Sequences.

(** ** Facts about the tables *)

Module TableFacts.

Lemma filter_key_absent {A} (key : A -> Z) (k : Z) (l : list A) :
  (forall x, x ∈ l -> key x <> k) ->
  List.filter (fun x => (key x =? k)%Z) l = [].
Proof.
  induction l as [|a l IH]; intros H; simpl; [reflexivity|].
  destruct (Z.eqb_spec (key a) k) as [E|_].
  - exfalso. apply (H a); [left | exact E].
  - apply IH. intros x Hx. apply H. now right.
Qed.

Lemma filter_key_unique {A} (key : A -> Z) (l : list A) (x : A) :
  NoDup (map key l) -> x ∈ l ->
  List.filter (fun y => (key y =? key x)%Z) l = [x].
Proof.
  induction l as [|a l IH]; intros Hnd Hx; [inversion Hx|].
  simpl in Hnd. apply NoDup_cons in Hnd as [Ha Hnd].
  apply elem_of_cons in Hx as [->|Hx]; simpl.
  - rewrite Z.eqb_refl. f_equal.
    apply filter_key_absent. intros y Hy E.
    apply Ha. rewrite <- E. apply list_elem_of_fmap. eauto.
  - destruct (Z.eqb_spec (key a) (key x)) as [E|_]; [|now apply IH].
    exfalso. apply Ha. rewrite E. apply list_elem_of_fmap. eauto.
Qed.

Lemma filter_key_remove {A} (key : A -> Z) (l : list A) (x y : A) :
  NoDup (map key l) -> x ∈ l ->
  y ∈ List.filter (fun z => negb (key z =? key x)%Z) l <-> y ∈ l /\ y <> x.
Proof.
  intros Hnd Hx. rewrite !list_elem_of_In, filter_In, <- !list_elem_of_In.
  rewrite negb_true_iff, Z.eqb_neq. split; intros [Hy Hne]; split; auto.
  - intros ->. now apply Hne.
  - intros E. apply Hne.
    assert (H : y ∈ List.filter (fun z => (key z =? key x)%Z) l).
    { apply list_elem_of_In, filter_In. split; [now apply list_elem_of_In|].
      now apply Z.eqb_eq. }
    rewrite (filter_key_unique key l x Hnd Hx) in H.
    now apply list_elem_of_singleton in H.
Qed.

(** Deleting the row that was appended last, by a key no other row has. *)
Lemma filter_key_fresh {A} (key : A -> Z) (l : list A) (x : A) :
  (forall y, y ∈ l -> key y <> key x) ->
  List.filter (fun z => negb (key z =? key x)%Z) (l ++ [x]) = l.
Proof.
  intros H. rewrite List.filter_app. simpl. rewrite Z.eqb_refl. simpl.
  rewrite app_nil_r. induction l as [|a l IH]; [reflexivity|]. simpl.
  destruct (Z.eqb_spec (key a) (key x)) as [E|_].
  - exfalso. apply (H a); [left | exact E].
  - simpl. f_equal. apply IH. intros y Hy. apply H. now right.
Qed.

Lemma filter_filter_length {A} (f g : A -> bool) (l : list A) :
  (length (List.filter f (List.filter g l)) <= length (List.filter f l))%nat.
Proof.
  induction l as [|a l IH]; simpl; [lia|].
  destruct (g a); simpl; destruct (f a); simpl; lia.
Qed.

End TableFacts.
Import TableFacts.

(** ** What each call does to the world *)

Module Runs.

Ltac run :=
  unfold post, perform_create, get_queryset,
    Post_objects_get, Post_objects_all_prefetched,
    Like_objects_get_or_create, Like_objects_create, Like_delete,
    serializer_save, cache_get, cache_set, cache_delete,
    bind, emit, ret, raise, get_db, put_db, get_cache, put_cache, get_now,
    eval, exec, logged, with_likes, likes_of, live; simpl.

Ltac tidy := rewrite <- ?app_assoc; simpl; try reflexivity.

Lemma not_post_exists pid s :
  ~ post_exists pid s -> forall p, p ∈ posts s -> post_id p <> pid.
Proof. intros H p Hp E. apply H. exists p. auto. Qed.

Lemma Post_objects_get_missing pid w :
  ~ post_exists pid (db w) ->
  Post_objects_get pid w = (Raise (DoesNotExist TPost), logged [DbSelect TPost] w).
Proof.
  intros H. run.
  now rewrite (filter_key_absent post_id pid _ (not_post_exists _ _ H)).
Qed.

Lemma Post_objects_get_found p w :
  NoDup (map post_id (posts (db w))) -> p ∈ posts (db w) ->
  Post_objects_get (post_id p) w = (Ok p, logged [DbSelect TPost] w).
Proof.
  intros Hnd Hp. run. now rewrite (filter_key_unique post_id _ p Hnd Hp).
Qed.

(** The three ways [LikePostView.post] can go for an authenticated user. *)
Lemma post_missing r pid w :
  ~ post_exists pid (db w) ->
  post r pid w = (Raise (DoesNotExist TPost), logged [DbSelect TPost] w).
Proof.
  intros H. unfold post, bind. now rewrite (Post_objects_get_missing pid w H).
Qed.

Lemma post_creates r uid p w :
  user r = AuthUser uid ->
  NoDup (map post_id (posts (db w))) -> p ∈ posts (db w) ->
  likes_of uid (post_id p) (db w) = [] ->
  post r (post_id p) w =
    (Ok (mkResponse true),
     mkWorld (with_likes (likes (db w) ++ [mkLike (like_seq (db w)) uid (post_id p)])
                         (like_seq (db w) + 1) (db w))
             (cache w) (now w)
             (trace w ++ [DbSelect TPost; DbSelect TLike; DbInsert TLike])).
Proof.
  intros Hu Hnd Hp Hl. unfold post, bind at 1 2.
  rewrite (Post_objects_get_found p w Hnd Hp).
  unfold likes_of in Hl. run. rewrite Hu. simpl. rewrite Hl. simpl. now tidy.
Qed.

Lemma post_deletes r uid p l w :
  user r = AuthUser uid ->
  NoDup (map post_id (posts (db w))) -> p ∈ posts (db w) ->
  likes_of uid (post_id p) (db w) = [l] ->
  post r (post_id p) w =
    (Ok (mkResponse false),
     mkWorld (with_likes (List.filter (fun l' => negb (like_id l' =? like_id l)%Z) (likes (db w)))
                         (like_seq (db w)) (db w))
             (cache w) (now w)
             (trace w ++ [DbSelect TPost; DbSelect TLike; DbDelete TLike])).
Proof.
  intros Hu Hnd Hp Hl. unfold post, bind at 1 2.
  rewrite (Post_objects_get_found p w Hnd Hp).
  unfold likes_of in Hl. run. rewrite Hu. simpl. rewrite Hl. simpl. now tidy.
Qed.

End Runs.
Import Runs.

(** ** The like toggle, case by case *)

Module Toggle.

Lemma filter_head_inv {A} (f : A -> bool) (l : list A) (x : A) (xs : list A) :
  List.filter f l = x :: xs -> x ∈ l /\ f x = true.
Proof.
  intros H. assert (Hx : In x (List.filter f l)) by (rewrite H; now left).
  apply filter_In in Hx as [Hx Hf]. split; [now apply list_elem_of_In | exact Hf].
Qed.

Lemma post_toggled r pid w :
  toggled r pid w (eval (post r pid) w) (exec (post r pid) w).
Proof.
  run.
  destruct (List.filter (fun p => (post_id p =? pid)%Z) (posts (db w)))
    as [|p [|p' ps]] eqn:Hp; simpl; try (now constructor).
  apply filter_head_inv in Hp as [Hp Hid]. apply Z.eqb_eq in Hid.
  assert (Hex : post_exists pid (db w)) by (exists p; auto).
  destruct (user r) as [|uid] eqn:Hu; simpl; [now constructor|].
  rewrite Hid.
  destruct (List.filter (like_matches uid pid) (likes (db w)))
    as [|l [|l' ls]] eqn:Hl; simpl; try (now constructor).
  - now apply (toggled_on r pid w uid).
  - now apply (toggled_off r pid w uid l).
Qed.

(** The handler's frame: the cache, the clock and the trace prefix. *)
Lemma post_frame r pid w :
  cache (exec (post r pid) w) = cache w /\
  now (exec (post r pid) w) = now w /\
  exists evs, trace (exec (post r pid) w) = trace w ++ evs /\
              forallb is_db_event evs = true.
Proof.
  run.
  destruct (List.filter (fun p => (post_id p =? pid)%Z) (posts (db w)))
    as [|p [|p' ps]]; simpl;
    try (split; [reflexivity|split; [reflexivity|]]; eexists; split; reflexivity).
  destruct (user r) as [|uid]; simpl;
    try (split; [reflexivity|split; [reflexivity|]]; eexists; split; reflexivity).
  destruct (List.filter (like_matches uid (post_id p)) (likes (db w)))
    as [|l [|l' ls]]; simpl;
    (split; [reflexivity|split; [reflexivity|]]);
    rewrite <- ?app_assoc; simpl; eexists; split; reflexivity.
Qed.

Lemma post_exists_elim pid s :
  post_exists pid s -> exists p, p ∈ posts s /\ pid = post_id p.
Proof. intros (p & Hp & E). eauto. Qed.

Lemma likes_of_singleton u pid s :
  like_unique s -> likes_of u pid s <> [] -> exists l, likes_of u pid s = [l].
Proof.
  intros Hs Hne. specialize (Hs u pid).
  destruct (likes_of u pid s) as [|l [|l' ls]]; [contradiction|eauto|simpl in Hs; lia].
Qed.

Lemma likes_of_after_remove u pid l s seq :
  likes_of u pid s = [l] ->
  likes_of u pid
    (with_likes (List.filter (fun l' => negb (like_id l' =? like_id l)%Z) (likes s)) seq s) = [].
Proof.
  intros Hl. unfold likes_of, with_likes in *. simpl.
  destruct (List.filter _ (List.filter _ _)) as [|x xs] eqn:E; [reflexivity|].
  exfalso. apply filter_head_inv in E as (Hin & Hm).
  apply list_elem_of_In, filter_In in Hin as [Hin Hg].
  assert (Hx : In x (List.filter (like_matches u pid) (likes s)))
    by (apply filter_In; auto).
  rewrite Hl in Hx. destruct Hx as [->|[]].
  now rewrite Z.eqb_refl in Hg.
Qed.

Lemma likes_of_after_add u pid k s seq :
  likes_of u pid s = [] ->
  likes_of u pid (with_likes (likes s ++ [mkLike k u pid]) seq s) = [mkLike k u pid].
Proof.
  intros Hl. unfold likes_of, with_likes in *. simpl.
  rewrite List.filter_app, Hl. simpl. unfold like_matches. simpl.
  now rewrite !Z.eqb_refl.
Qed.

Lemma like_matches_spec u pid l :
  like_matches u pid l = true <-> like_user l = u /\ like_post l = pid.
Proof. unfold like_matches. rewrite andb_true_iff, !Z.eqb_eq. tauto. Qed.

Lemma likes_of_nonempty u pid s :
  likes_of u pid s <> [] <->
  exists l, l ∈ likes s /\ like_user l = u /\ like_post l = pid.
Proof.
  unfold likes_of. split.
  - destruct (List.filter _ _) as [|l ls] eqn:E; [contradiction|]. intros _.
    apply filter_head_inv in E as [Hin Hm]. exists l. split; [exact Hin|].
    now apply like_matches_spec.
  - intros (l & Hin & Hm) E. apply like_matches_spec in Hm.
    assert (Hx : In l (List.filter (like_matches u pid) (likes s)))
      by (apply filter_In; split; [now apply list_elem_of_In|exact Hm]).
    now rewrite E in Hx.
Qed.

End Toggle.
Import Toggle.

(** ** The list and create handlers, case by case *)

Module ListCreate.

Section WithSchema.
Context {Sch : Schema}.

Lemma recent_length s : (length (recent s) <= 20)%nat.
Proof. unfold recent. rewrite length_map, length_take. lia. Qed.

Lemma get_queryset_warm w v :
  live "recent_posts" w = Some v -> v <> [] ->
  get_queryset w = (Ok v, logged [CacheGet "recent_posts"] w).
Proof.
  unfold live. intros Hv Hne. run.
  destruct (cache w !! "recent_posts") as [e|]; [|discriminate].
  destruct (now w <? entry_expires e)%Z; [|discriminate].
  injection Hv as ->. simpl. destruct v; [contradiction|reflexivity].
Qed.

Lemma get_queryset_cold w :
  truthy (live "recent_posts" w) = false ->
  get_queryset w =
    (Ok (recent (db w)),
     mkWorld (db w)
             (<["recent_posts" := mkCacheEntry (recent (db w)) (now w + 300)]> (cache w))
             (now w)
             (trace w ++ [CacheGet "recent_posts"; DbSelect TPost; CacheSet "recent_posts" 300])).
Proof.
  unfold live, recent. intros Hv. run.
  destruct (cache w !! "recent_posts") as [e|]; simpl.
  - destruct (now w <? entry_expires e)%Z; simpl.
    + simpl in Hv. destruct (entry_value e); [|discriminate]. simpl. now tidy.
    + now tidy.
  - now tidy.
Qed.

Lemma get_queryset_db w : db (exec get_queryset w) = db w.
Proof.
  destruct (truthy (live "recent_posts" w)) eqn:Hv.
  - destruct (live "recent_posts" w) as [[|x v]|] eqn:Hl; try discriminate.
    unfold exec. now rewrite (get_queryset_warm w (x :: v)).
  - unfold exec. now rewrite (get_queryset_cold w).
Qed.

Lemma perform_create_saved ser r uid w :
  user r = AuthUser uid ->
  db_accepts (new_post ser uid w) = true ->
  perform_create ser r w =
    (Ok tt,
     mkWorld (with_post (new_post ser uid w) (db w))
             (delete "recent_posts" (cache w))
             (now w)
             (trace w ++ [DbInsert TPost; CacheDelete "recent_posts"])).
Proof.
  unfold new_post, with_post. intros Hu Hok. run. rewrite Hu. simpl.
  rewrite Hok. simpl. now tidy.
Qed.

Lemma perform_create_failed ser r e w :
  eval (serializer_save ser (user r)) w = Raise e ->
  perform_create ser r w = (Raise e, exec (serializer_save ser (user r)) w).
Proof.
  unfold eval, exec, perform_create, bind.
  destruct (serializer_save ser (user r) w) as [[p|e'] w']; simpl; [discriminate|].
  now intros [= ->].
Qed.

(** [serializer.save] either inserts the new post or changes nothing but
    the trace. *)
Lemma serializer_save_cases ser u w :
  (exists uid, u = AuthUser uid /\ db_accepts (new_post ser uid w) = true /\
     serializer_save ser u w =
       (Ok (new_post ser uid w),
        mkWorld (with_post (new_post ser uid w) (db w)) (cache w) (now w)
                (trace w ++ [DbInsert TPost]))) \/
  (exists e evs, serializer_save ser u w = (Raise e, logged evs w) /\
     forallb is_db_event evs = true).
Proof.
  unfold new_post, with_post. destruct u as [|uid].
  - right. exists ValueError, []. run. now rewrite app_nil_r; destruct w.
  - destruct (db_accepts (new_post ser uid w)) eqn:Hok; unfold new_post in Hok.
    + left. exists uid. split; [reflexivity|]. split; [exact Hok|]. run. now rewrite Hok.
    + right. exists DatabaseError, [DbInsert TPost]. run. now rewrite Hok.
Qed.

Lemma perform_create_ok_inv ser r w :
  eval (perform_create ser r) w = Ok tt ->
  exists uid, user r = AuthUser uid /\ db_accepts (new_post ser uid w) = true.
Proof.
  intros H. destruct (serializer_save_cases ser (user r) w)
    as [(uid & Hu & Hok & _)|(e & evs & Hf & _)]; [eauto|].
  unfold eval in H. rewrite (perform_create_failed ser r e w) in H; [discriminate|].
  unfold eval. now rewrite Hf.
Qed.

End WithSchema.
End ListCreate.
Import ListCreate.

(** ** Invariants *)

Module Invariants.

Lemma like_unique_add (k u pid seq : Z) (s : Store) :
  likes_of u pid s = [] -> like_unique s ->
  like_unique (with_likes (likes s ++ [mkLike k u pid]) seq s).
Proof.
  intros Hnone Hs u' pid'. unfold likes_of, with_likes in *. simpl.
  rewrite List.filter_app, length_app. simpl.
  specialize (Hs u' pid'). unfold likes_of in Hs.
  destruct (like_matches u' pid' (mkLike k u pid)) eqn:Hm; simpl; [|lia].
  unfold like_matches in Hm. simpl in Hm.
  apply andb_true_iff in Hm as [Hu Hp].
  apply Z.eqb_eq in Hu, Hp. subst u' pid'. rewrite Hnone. simpl. lia.
Qed.

Lemma like_unique_remove (g : Like -> bool) (seq : Z) (s : Store) :
  like_unique s -> like_unique (with_likes (List.filter g (likes s)) seq s).
Proof.
  intros Hs u pid. specialize (Hs u pid). unfold likes_of, with_likes in *. simpl.
  pose proof (filter_filter_length (like_matches u pid) g (likes s)). lia.
Qed.

Lemma toggled_like_unique r pid w res w' :
  toggled r pid w res w' -> like_unique (db w) -> like_unique (db w').
Proof.
  intros [e w1 Hdb|uid w1 _ _ Hnone Hdb|uid l w1 _ _ _ Hdb] Hs; rewrite Hdb.
  - exact Hs.
  - now apply like_unique_add.
  - now apply like_unique_remove.
Qed.

Lemma keys_ok_add_like (u pid : Z) (s : Store) :
  keys_ok s ->
  keys_ok (with_likes (likes s ++ [mkLike (like_seq s) u pid]) (like_seq s + 1) s).
Proof.
  intros [Hp Hl Hpb Hlb]. split; simpl; auto.
  - rewrite fmap_app. apply NoDup_app. split; [exact Hl|]. split.
    + intros k Hk Hin. simpl in Hin. apply list_elem_of_singleton in Hin. subst k.
      apply list_elem_of_fmap in Hk as (l & E & Hin).
      rewrite Forall_forall in Hlb. specialize (Hlb l Hin). simpl in Hlb. lia.
    + simpl. apply NoDup_singleton.
  - apply Forall_app. split.
    + eapply Forall_impl; [exact Hlb|]. simpl. intros; lia.
    + apply Forall_singleton. simpl. lia.
Qed.

Lemma keys_ok_remove_like (g : Like -> bool) (s : Store) :
  keys_ok s -> keys_ok (with_likes (List.filter g (likes s)) (like_seq s) s).
Proof.
  intros [Hp Hl Hpb Hlb]. split; simpl; auto.
  - clear Hlb. induction (likes s) as [|a l IH]; simpl; [constructor|].
    simpl in Hl. apply NoDup_cons in Hl as [Ha Hl].
    destruct (g a); [|now apply IH]. simpl. apply NoDup_cons. split; [|now apply IH].
    intros Hin. apply Ha. apply list_elem_of_fmap in Hin as (y & E & Hy).
    apply list_elem_of_fmap. exists y. split; [exact E|].
    apply list_elem_of_In in Hy. apply filter_In in Hy as [Hy _].
    now apply list_elem_of_In.
  - rewrite Forall_forall in *. intros x Hx. apply Hlb.
    apply list_elem_of_In in Hx. apply filter_In in Hx as [Hx _].
    now apply list_elem_of_In.
Qed.

Lemma keys_ok_add_post (p : Post) (s : Store) :
  post_id p = post_seq s -> keys_ok s -> keys_ok (with_post p s).
Proof.
  intros Hid [Hp Hl Hpb Hlb]. split; simpl; auto.
  - rewrite fmap_app. apply NoDup_app. split; [exact Hp|]. split.
    + intros k Hk Hin. simpl in Hin. apply list_elem_of_singleton in Hin. subst k.
      apply list_elem_of_fmap in Hk as (q & E & Hin).
      rewrite Forall_forall in Hpb. specialize (Hpb q Hin). simpl in Hpb. lia.
    + simpl. apply NoDup_singleton.
  - apply Forall_app. split.
    + eapply Forall_impl; [exact Hpb|]. simpl. intros; lia.
    + apply Forall_singleton. lia.
Qed.

Lemma toggled_keys_ok r pid w res w' :
  toggled r pid w res w' -> keys_ok (db w) -> keys_ok (db w').
Proof.
  intros [e w1 Hdb|uid w1 _ _ _ Hdb|uid l w1 _ _ _ Hdb] Hs; rewrite Hdb.
  - exact Hs.
  - now apply keys_ok_add_like.
  - now apply keys_ok_remove_like.
Qed.

Section WithSchema.
Context {Sch : Schema}.

Lemma perform_create_cases ser r w :
  (exists uid, user r = AuthUser uid /\
     db (exec (perform_create ser r) w) = with_post (new_post ser uid w) (db w) /\
     cache (exec (perform_create ser r) w) = delete "recent_posts" (cache w)) \/
  (db (exec (perform_create ser r) w) = db w /\
   cache (exec (perform_create ser r) w) = cache w).
Proof.
  destruct (serializer_save_cases ser (user r) w)
    as [(uid & Hu & Hok & _)|(e & evs & Hf & _)].
  - left. exists uid. split; [exact Hu|]. unfold exec.
    now rewrite (perform_create_saved ser r uid w Hu Hok).
  - right. unfold exec. rewrite (perform_create_failed ser r e w).
    + unfold exec. now rewrite Hf.
    + unfold eval. now rewrite Hf.
Qed.

Lemma get_queryset_cache_ok w : cache_ok w -> cache_ok (exec get_queryset w).
Proof.
  intros Hc. destruct (truthy (live "recent_posts" w)) eqn:Hv.
  - destruct (live "recent_posts" w) as [[|x v]|] eqn:Hl; try discriminate.
    unfold exec. now rewrite (get_queryset_warm w (x :: v)).
  - unfold exec. rewrite (get_queryset_cold w Hv). intros key e. simpl.
    destruct (decide (key = "recent_posts")) as [->|Hne].
    + rewrite lookup_insert_eq. intros [= <-]. simpl. apply recent_length.
    + rewrite lookup_insert_ne by congruence. apply Hc.
Qed.

Lemma step_inv w w' : step w w' -> inv w -> inv w'.
Proof.
  intros Hstep [[Hk Hu] Hc]. destruct Hstep as [w|ser r w _ _|r pid w _|d w _].
  - split; [|now apply get_queryset_cache_ok]. now rewrite get_queryset_db.
  - destruct (perform_create_cases ser r w) as [(uid & _ & Hdb & Hca)|[Hdb Hca]].
    + split; [rewrite Hdb; split|].
      * now apply keys_ok_add_post.
      * exact Hu.
      * intros key e. rewrite Hca. intros He.
        apply lookup_delete_Some in He as [_ He]. now apply (Hc key e).
    + split; [now rewrite Hdb|]. intros key e. rewrite Hca. apply Hc.
  - pose proof (post_toggled r pid w) as Ht.
    destruct (post_frame r pid w) as (Hca & _). split; [split|].
    + eapply toggled_keys_ok; eauto.
    + eapply toggled_like_unique; eauto.
    + intros key e. rewrite Hca. apply Hc.
  - split; [split|]; assumption.
Qed.

Lemma fresh_inv t : inv (fresh t).
Proof.
  split; [split; [split; simpl; constructor|]|].
  - intros u pid. simpl. lia.
  - intros key e. simpl. now rewrite lookup_empty.
Qed.

Lemma reachable_inv w : reachable w -> inv w.
Proof.
  induction 1 as [t|w w' _ IH Hstep]; [apply fresh_inv|].
  now apply (step_inv w w').
Qed.

End WithSchema.
End Invariants.
Import Invariants.

(** ** The concrete worlds are reachable *)

Module ScenarioFacts.
Import Schemas.

Lemma posted_reachable {Sch : Schema} n w :
  reachable w -> reachable (posted n w).
Proof.
  intros Hw. induction n as [|n IH]; [exact Hw|]. simpl.
  eapply reach_step; [exact IH|]. now apply step_create.
Defined.

Lemma one_post_reachable : reachable (Sch := storage_order) one_post.
Proof. apply posted_reachable, reach_fresh. Defined.

Lemma one_like_reachable : reachable (Sch := storage_order) one_like.
Proof. eapply reach_step; [apply one_post_reachable|]. now apply step_like. Defined.

Lemma warm_reachable : reachable (Sch := storage_order) warm.
Proof. eapply reach_step; [apply one_post_reachable|]. apply step_list. Defined.

Lemma one_post_exists : post_exists 1 (db one_post).
Proof. eexists. split; [left|reflexivity]. Defined.

Lemma one_like_post_exists : post_exists 1 (db one_like).
Proof. eexists. split; [left|reflexivity]. Defined.

Lemma one_like_store_ok : store_ok (db one_like).
Proof.
  split; [split|]; simpl.
  - apply NoDup_singleton.
  - apply NoDup_singleton.
  - apply Forall_singleton. simpl. lia.
  - apply Forall_singleton. simpl. lia.
  - intros u pid. unfold likes_of. simpl.
    destruct (like_matches u pid (mkLike 1 2 1)); simpl; lia.
Defined.

Lemma newest_first_most_recent_first : most_recent_first newest_first.
Proof. intros l p. simpl. apply rev_unit. Defined.

End ScenarioFacts.
Import ScenarioFacts.

(** ** The like toggle *)

Section LikeToggle.
Context {Sch : Schema}.

(** C1. Like uniqueness: in every reachable world each (user, post) pair
    has at most one Like record, and whatever the next request is (a list,
    a create, a like toggle) or however much time passes, the world after
    it has the same property. *)
Theorem like_uniqueness_invariant (w : World) :
  reachable w ->
  like_unique (db w) /\ forall w', step w w' -> like_unique (db w').
Proof.
  intros Hw. pose proof (reachable_inv w Hw) as Hinv. split.
  - apply Hinv.
  - intros w' Hstep. apply (step_inv w w' Hstep Hinv).
Qed.

(** C2. One call of the like toggle, by an authenticated user on an
    existing post: when the pair has no Like record the call answers
    [liked = true] and appends one record for the pair; when it has one
    the call answers [liked = false], removes exactly that record and
    leaves the pair with none. *)
Theorem like_toggle_single_call (w : World) (r : Request) (uid pid : Z) :
  reachable w -> user r = AuthUser uid -> post_exists pid (db w) ->
  (likes_of uid pid (db w) = [] ->
     eval (post r pid) w = Ok (mkResponse true) /\
     likes (db (exec (post r pid) w)) =
       likes (db w) ++ [mkLike (like_seq (db w)) uid pid]) /\
  (likes_of uid pid (db w) <> [] ->
     exists l, likes_of uid pid (db w) = [l] /\
       eval (post r pid) w = Ok (mkResponse false) /\
       likes_of uid pid (db (exec (post r pid) w)) = [] /\
       forall l', l' ∈ likes (db (exec (post r pid) w)) <-> l' ∈ likes (db w) /\ l' <> l).
Proof.
  intros Hw Hu Hex. destruct (reachable_inv w Hw) as [[Hk Hun] _].
  apply post_exists_elim in Hex as (p & Hp & ->).
  pose proof (post_ids_nodup _ Hk) as Hnd. split.
  - intros Hl. unfold eval, exec. now rewrite (post_creates r uid p w Hu Hnd Hp Hl).
  - intros Hne. destruct (likes_of_singleton _ _ _ Hun Hne) as [l Hl]. exists l.
    unfold eval, exec. rewrite (post_deletes r uid p l w Hu Hnd Hp Hl). simpl.
    split; [exact Hl|]. split; [reflexivity|]. split.
    + now apply likes_of_after_remove.
    + intros l'. apply (filter_key_remove like_id); [apply (like_ids_nodup _ Hk)|].
      unfold likes_of in Hl. apply (filter_head_inv (like_matches uid (post_id p)) _ l []).
      exact Hl.
Qed.

(** C3. Two consecutive like toggles by the same user on the same
    existing post, starting without a Like record for the pair: the
    answers are [liked = true], then [liked = false]; afterwards the pair
    has no record and the Like table is what it was. *)
Theorem like_toggle_twice (w : World) (r : Request) (uid pid : Z) :
  reachable w -> user r = AuthUser uid -> post_exists pid (db w) ->
  likes_of uid pid (db w) = [] ->
  eval (post r pid) w = Ok (mkResponse true) /\
  eval (post r pid) (exec (post r pid) w) = Ok (mkResponse false) /\
  likes_of uid pid (db (exec (post r pid) (exec (post r pid) w))) = [] /\
  likes (db (exec (post r pid) (exec (post r pid) w))) = likes (db w).
Proof.
  intros Hw Hu Hex Hl. destruct (reachable_inv w Hw) as [[Hk Hun] _].
  apply post_exists_elim in Hex as (p & Hp & ->).
  pose proof (post_ids_nodup _ Hk) as Hnd.
  pose proof (post_creates r uid p w Hu Hnd Hp Hl) as H1.
  set (l := mkLike (like_seq (db w)) uid (post_id p)) in *.
  set (w1 := exec (post r (post_id p)) w).
  assert (Hdb1 : db w1 = with_likes (likes (db w) ++ [l]) (like_seq (db w) + 1) (db w))
    by (unfold w1, exec; now rewrite H1).
  assert (Hl1 : likes_of uid (post_id p) (db w1) = [l])
    by (rewrite Hdb1; now apply likes_of_after_add).
  assert (Hp1 : p ∈ posts (db w1)) by (rewrite Hdb1; exact Hp).
  assert (Hnd1 : NoDup (map post_id (posts (db w1)))) by (rewrite Hdb1; exact Hnd).
  pose proof (post_deletes r uid p l w1 Hu Hnd1 Hp1 Hl1) as H2.
  assert (Hfresh : List.filter (fun l' => negb (like_id l' =? like_id l)%Z) (likes (db w1))
                   = likes (db w)).
  { rewrite Hdb1. apply (filter_key_fresh like_id (likes (db w)) l). intros y Hy. simpl.
    pose proof (like_ids_below _ Hk) as Hb. rewrite Forall_forall in Hb.
    specialize (Hb y Hy). simpl in Hb. lia. }
  unfold eval, exec. fold w1. rewrite H1, H2.
  split; [reflexivity|]. split; [reflexivity|]. split.
  - exact (likes_of_after_remove uid (post_id p) l (db w1) _ Hl1).
  - exact Hfresh.
Qed.

(** C10. The answer of the like toggle tells the truth about the store:
    on every store with unique keys and at most one Like per pair, whether
    or not the handlers built it, for an authenticated user and an existing
    post the call returns a [liked] flag, and the flag is [true] exactly
    when a Like record for the pair is in the store once the call has
    completed. *)
Theorem like_response_truthful (w : World) (r : Request) (uid pid : Z) :
  store_ok (db w) -> user r = AuthUser uid -> post_exists pid (db w) ->
  exists b, eval (post r pid) w = Ok (mkResponse b) /\
    (b = true <->
     exists l, l ∈ likes (db (exec (post r pid) w)) /\ like_user l = uid /\ like_post l = pid).
Proof.
  intros [Hk Hun] Hu Hex.
  apply post_exists_elim in Hex as (p & Hp & ->).
  pose proof (post_ids_nodup _ Hk) as Hnd.
  destruct (likes_of uid (post_id p) (db w)) as [|l0 ls] eqn:Hl.
  - exists true. unfold eval, exec. rewrite (post_creates r uid p w Hu Hnd Hp Hl).
    split; [reflexivity|]. split; [|reflexivity]. intros _.
    apply (proj1 (likes_of_nonempty uid (post_id p)
             (with_likes (likes (db w) ++ [mkLike (like_seq (db w)) uid (post_id p)])
                         (like_seq (db w) + 1) (db w)))).
    now rewrite likes_of_after_add.
  - assert (Hne : likes_of uid (post_id p) (db w) <> []) by (now rewrite Hl).
    destruct (likes_of_singleton _ _ _ Hun Hne) as [l Hl'].
    exists false. unfold eval, exec. rewrite (post_deletes r uid p l w Hu Hnd Hp Hl').
    split; [reflexivity|]. split; [discriminate|]. intros Hm. exfalso.
    apply (proj2 (likes_of_nonempty uid (post_id p)
             (with_likes (List.filter (fun l' => negb (like_id l' =? like_id l)%Z)
                                      (likes (db w)))
                         (like_seq (db w)) (db w)))) in Hm.
    apply Hm. now apply likes_of_after_remove.
Qed.

End LikeToggle.

(** The theorems above, at Bob liking Alice's only post. *)

Lemma like_uniqueness_invariant_witness :
  like_unique (db one_like) /\
  forall w', step (Sch := Schemas.storage_order) one_like w' -> like_unique (db w').
Proof.
  exact (like_uniqueness_invariant (Sch := Schemas.storage_order) one_like
           one_like_reachable).
Defined.

Lemma like_toggle_single_call_witness :
  eval (post bob 1) one_post = Ok (mkResponse true) /\
  eval (post bob 1) one_like = Ok (mkResponse false).
Proof.
  split.
  - apply (like_toggle_single_call (Sch := Schemas.storage_order) one_post bob 2 1
             one_post_reachable eq_refl one_post_exists).
    reflexivity.
  - destruct (proj2 (like_toggle_single_call (Sch := Schemas.storage_order) one_like bob 2 1
                       one_like_reachable eq_refl one_like_post_exists))
      as (l & _ & H & _); [vm_compute; discriminate | exact H].
Defined.

Lemma like_toggle_twice_witness :
  eval (post bob 1) one_post = Ok (mkResponse true) /\
  eval (post bob 1) (exec (post bob 1) one_post) = Ok (mkResponse false) /\
  likes_of 2 1 (db (exec (post bob 1) (exec (post bob 1) one_post))) = [] /\
  likes (db (exec (post bob 1) (exec (post bob 1) one_post))) = likes (db one_post).
Proof.
  apply (like_toggle_twice (Sch := Schemas.storage_order) one_post bob 2 1
           one_post_reachable eq_refl one_post_exists).
  reflexivity.
Defined.

(** Bob's Like is in the store: the call answers [false] and no Like of
    the pair is left. *)
Lemma like_response_truthful_witness :
  exists b, eval (post bob 1) one_like = Ok (mkResponse b) /\
    b = false /\
    (b = true <->
     exists l, l ∈ likes (db (exec (post bob 1) one_like)) /\
               like_user l = 2%Z /\ like_post l = 1%Z).
Proof.
  destruct (like_response_truthful one_like bob 2 1
              one_like_store_ok eq_refl one_like_post_exists) as (b & Hb & Hiff).
  exists b. split; [exact Hb|]. split; [|exact Hiff].
  vm_compute in Hb. now injection Hb as <-.
Defined.

(** ** A post that does not exist *)

(** C4, as the code has it.  For a [post_id] that resolves to no post the
    like toggle does not answer: [Post.DoesNotExist] leaves the handler,
    the framework's exception handler has no response for it, and the
    request ends as a server error.  Nothing is written: the store and the
    cache are what they were. *)
Theorem like_missing_post_raises (w : World) (r : Request) (pid : Z) :
  ~ post_exists pid (db w) ->
  eval (post r pid) w = Raise (DoesNotExist TPost) /\
  exception_handler (DoesNotExist TPost) = None /\
  status_code (eval (post r pid) w) = 500%Z /\
  db (exec (post r pid) w) = db w /\
  cache (exec (post r pid) w) = cache w.
Proof.
  intros H. unfold eval, exec. rewrite (post_missing r pid w H). simpl. auto.
Qed.

Lemma like_missing_post_raises_witness :
  eval (post bob 7) one_like = Raise (DoesNotExist TPost) /\
  exception_handler (DoesNotExist TPost) = None /\
  status_code (eval (post bob 7) one_like) = 500%Z /\
  db (exec (post bob 7) one_like) = db one_like /\
  cache (exec (post bob 7) one_like) = cache one_like.
Proof.
  apply (like_missing_post_raises one_like bob 7).
  intros (p & Hp & Hid). vm_compute in Hp.
  apply list_elem_of_singleton in Hp. subst p. discriminate Hid.
Defined.

(** C4, as stated, fails: liking post 7 when only post 1 exists is not
    answered with a client error. *)
Lemma like_missing_post_not_client_error :
  is_client_error (status_code (eval (post bob 7) one_like)) = false /\
  eval (post bob 7) one_like = Raise (DoesNotExist TPost).
Proof. split; reflexivity. Qed.

(** ** The like toggle and the cache *)

Section LikeCache.
Context {Sch : Schema}.

(** C9. The like toggle never touches the cache: whatever the request,
    the cache after the call is the cache before it, the call makes no
    cache call at all, and a list that was warm before the call is served
    from the same cached rows after it. *)
Theorem like_toggle_leaves_cache (w : World) (r : Request) (pid : Z) :
  cache (exec (post r pid) w) = cache w /\
  live "recent_posts" (exec (post r pid) w) = live "recent_posts" w /\
  (exists evs, trace (exec (post r pid) w) = trace w ++ evs /\
               forallb is_db_event evs = true) /\
  match live "recent_posts" w with
  | Some (x :: v) => eval get_queryset (exec (post r pid) w) = Ok (x :: v)
  | _ => True
  end.
Proof.
  destruct (post_frame r pid w) as (Hc & Hn & Ht).
  assert (Hl : live "recent_posts" (exec (post r pid) w) = live "recent_posts" w)
    by (unfold live; now rewrite Hc, Hn).
  split; [exact Hc|]. split; [exact Hl|]. split; [exact Ht|].
  destruct (live "recent_posts" w) as [[|x v]|] eqn:E; try exact I.
  unfold eval. now rewrite (get_queryset_warm _ (x :: v) Hl).
Qed.

End LikeCache.

(** Stale like information: Bob likes the post while the list is warm;
    the store has his Like, the list served afterwards does not. *)
Example stale_like_information :
  likes (db (exec (post bob 1) warm)) = [mkLike 1 2 1] /\
  eval (get_queryset (Sch := Schemas.storage_order)) (exec (post bob 1) warm)
    = Ok [mkPostRow (mkPost 1 1 "hello" 0) [] []].
Proof. split; reflexivity. Qed.

(** ** Listing and creating posts *)

Section ListAndCreate.
Context {Sch : Schema}.

Lemma cache_get_live key w :
  cache_get key w = (Ok (live key w), logged [CacheGet key] w).
Proof.
  run. destruct (cache w !! key) as [e|]; [|reflexivity].
  now destruct (now w <? entry_expires e)%Z.
Qed.

Lemma recent_posts s : map row_post (recent s) = take 20 (ordering (posts s)).
Proof.
  unfold recent. induction (take 20 (ordering (posts s))) as [|p l IH]; simpl.
  - reflexivity.
  - now rewrite IH.
Qed.

(** C5. The list operation.  [cache.get("recent_posts")] returns
    [live "recent_posts" w].  When that is a non-empty sequence, the list
    operation returns it as it is and its only call is that cache read.
    Otherwise it queries the store, keeps the first 20 rows, stores them
    under the key to expire 300 seconds from now, and returns them. *)
Theorem list_operation_semantics (w : World) :
  eval (cache_get "recent_posts") w = Ok (live "recent_posts" w) /\
  (length (recent (db w)) <= 20)%nat /\
  get_queryset w =
    match live "recent_posts" w with
    | Some (x :: v) =>
        (Ok (x :: v), logged [CacheGet "recent_posts"] w)
    | _ =>
        (Ok (recent (db w)),
         mkWorld (db w)
                 (<["recent_posts" := mkCacheEntry (recent (db w)) (now w + 300)]> (cache w))
                 (now w)
                 (trace w ++ [CacheGet "recent_posts"; DbSelect TPost;
                              CacheSet "recent_posts" 300]))
    end.
Proof.
  split; [unfold eval; now rewrite cache_get_live|].
  split; [apply recent_length|].
  destruct (live "recent_posts" w) as [[|x v]|] eqn:E.
  - apply get_queryset_cold. now rewrite E.
  - now apply get_queryset_warm.
  - apply get_queryset_cold. now rewrite E.
Qed.

(** C7. Bounded list size: in every reachable world the list operation
    returns, and what it returns has at most 20 posts. *)
Theorem list_is_bounded (w : World) :
  reachable w ->
  exists rows, eval get_queryset w = Ok rows /\ (length rows <= 20)%nat.
Proof.
  intros Hw. destruct (reachable_inv w Hw) as [_ Hc].
  destruct (live "recent_posts" w) as [[|x v]|] eqn:E.
  - exists (recent (db w)). unfold eval. rewrite get_queryset_cold by (now rewrite E).
    split; [reflexivity|apply recent_length].
  - exists (x :: v). unfold eval. rewrite (get_queryset_warm w (x :: v) E) by discriminate.
    split; [reflexivity|]. unfold live in E.
    destruct (cache w !! "recent_posts") as [e|] eqn:He; [|discriminate].
    destruct (now w <? entry_expires e)%Z; [|discriminate].
    injection E as <-. apply (Hc _ _ He).
  - exists (recent (db w)). unfold eval. rewrite get_queryset_cold by (now rewrite E).
    split; [reflexivity|apply recent_length].
Qed.

(** C8. A create that fails to persist: when [serializer.save] raises,
    [perform_create] raises the same exception, makes no cache call, and
    leaves the cache and the store as they were. *)
Theorem create_failure_keeps_cache (w : World) (ser : PostSerializer) (r : Request) (e : Exn) :
  eval (serializer_save ser (user r)) w = Raise e ->
  eval (perform_create ser r) w = Raise e /\
  cache (exec (perform_create ser r) w) = cache w /\
  db (exec (perform_create ser r) w) = db w /\
  exists evs, trace (exec (perform_create ser r) w) = trace w ++ evs /\
              forallb is_db_event evs = true.
Proof.
  intros Hf. unfold eval, exec. rewrite (perform_create_failed ser r e w Hf). simpl.
  split; [reflexivity|].
  destruct (serializer_save_cases ser (user r) w)
    as [(uid & _ & _ & Hs)|(e' & evs & Hs & Hevs)].
  - unfold eval in Hf. rewrite Hs in Hf. discriminate.
  - unfold exec. rewrite Hs. simpl. split; [reflexivity|]. split; [reflexivity|].
    exists evs. auto.
Qed.

(** After a create that succeeded, under any ordering: the store holds
    the new post, the key "recent_posts" is gone, and the very next list
    operation queries the store and returns the first 20 posts of the
    ordering.  The new post is one of them when the store held fewer than
    20 posts before the create. *)
Lemma create_then_list_rows (w : World) (ser : PostSerializer) (r : Request) :
  eval (perform_create ser r) w = Ok tt ->
  exists uid,
    let p := new_post ser uid w in
    let w1 := exec (perform_create ser r) w in
    user r = AuthUser uid /\
    posts (db w1) = posts (db w) ++ [p] /\
    cache w1 !! "recent_posts" = None /\
    get_queryset w1 =
      (Ok (recent (db w1)),
       mkWorld (db w1)
               (<["recent_posts" := mkCacheEntry (recent (db w1)) (now w1 + 300)]> (cache w1))
               (now w1)
               (trace w1 ++ [CacheGet "recent_posts"; DbSelect TPost;
                             CacheSet "recent_posts" 300])) /\
    map row_post (recent (db w1)) = take 20 (ordering (posts (db w) ++ [p])) /\
    ((length (posts (db w)) < 20)%nat -> p ∈ map row_post (recent (db w1))).
Proof.
  intros Hok. destruct (perform_create_ok_inv ser r w Hok) as (uid & Hu & Hacc).
  exists uid. cbv zeta. unfold exec.
  rewrite (perform_create_saved ser r uid w Hu Hacc). cbn [snd].
  set (w1 := mkWorld _ _ _ _).
  assert (Hmiss : cache w1 !! "recent_posts" = None) by apply lookup_delete_eq.
  split; [exact Hu|]. split; [reflexivity|]. split; [exact Hmiss|]. split.
  - apply get_queryset_cold. unfold live. now rewrite Hmiss.
  - split; [apply recent_posts|]. intros Hlen. rewrite recent_posts.
    change (posts (db w1)) with (posts (db w) ++ [new_post ser uid w]).
    rewrite take_ge.
    + apply list_elem_of_In. eapply Permutation_in.
      * apply Permutation_sym, ordering_perm.
      * apply in_or_app. right. now left.
    + rewrite (Permutation_length (ordering_perm _)), length_app. simpl. lia.
Qed.

(** C6. Read after write, with the ordering of the specification (most
    recent first): after every create that succeeded the key
    "recent_posts" is gone, so the very next list operation misses the
    cache, queries the store, and the rows it returns include the post
    just created, however many posts the store holds. *)
Theorem create_then_list (w : World) (ser : PostSerializer) (r : Request) :
  Schemas.most_recent_first Sch ->
  eval (perform_create ser r) w = Ok tt ->
  exists uid,
    let p := new_post ser uid w in
    let w1 := exec (perform_create ser r) w in
    user r = AuthUser uid /\
    posts (db w1) = posts (db w) ++ [p] /\
    cache w1 !! "recent_posts" = None /\
    live "recent_posts" w1 = None /\
    get_queryset w1 =
      (Ok (recent (db w1)),
       mkWorld (db w1)
               (<["recent_posts" := mkCacheEntry (recent (db w1)) (now w1 + 300)]> (cache w1))
               (now w1)
               (trace w1 ++ [CacheGet "recent_posts"; DbSelect TPost;
                             CacheSet "recent_posts" 300])) /\
    p ∈ map row_post (recent (db w1)).
Proof.
  intros Hfirst Hok.
  destruct (create_then_list_rows w ser r Hok) as (uid & Hu & Hposts & Hmiss & Hq & Hrows & _).
  exists uid. cbv zeta.
  split; [exact Hu|]. split; [exact Hposts|]. split; [exact Hmiss|].
  split; [unfold live; now rewrite Hmiss|]. split; [exact Hq|].
  rewrite Hrows, Hfirst. simpl. apply list_elem_of_here.
Qed.

End ListAndCreate.

Lemma not_in_rows_by_id (p : Post) (rows : list PostRow) :
  forallb (fun row => negb (post_id (row_post row) =? post_id p)%Z) rows = true ->
  ~ p ∈ map row_post rows.
Proof.
  intros Hall Hin. apply list_elem_of_fmap in Hin as (row & -> & Hrow).
  rewrite forallb_forall in Hall. specialize (Hall row).
  rewrite Z.eqb_refl in Hall. apply list_elem_of_In in Hrow.
  specialize (Hall Hrow). discriminate Hall.
Qed.

(** The theorems above, at concrete worlds. *)

Lemma list_is_bounded_witness :
  exists rows, eval (get_queryset (Sch := Schemas.storage_order)) warm = Ok rows /\
               (length rows <= 20)%nat.
Proof.
  exact (list_is_bounded (Sch := Schemas.storage_order) warm warm_reachable).
Defined.

(** A table that refuses blank content, asked to store a blank post while
    the list is warm. *)
Lemma create_failure_keeps_cache_witness :
  let blank := mkPostSerializer "" in
  eval (perform_create (Sch := Schemas.newest_first) blank alice) warm = Raise DatabaseError /\
  cache (exec (perform_create (Sch := Schemas.newest_first) blank alice) warm) = cache warm /\
  db (exec (perform_create (Sch := Schemas.newest_first) blank alice) warm) = db warm /\
  exists evs,
    trace (exec (perform_create (Sch := Schemas.newest_first) blank alice) warm)
      = trace warm ++ evs /\
    forallb is_db_event evs = true.
Proof.
  exact (create_failure_keeps_cache (Sch := Schemas.newest_first) warm
           (mkPostSerializer "") alice DatabaseError eq_refl).
Defined.

(** Twenty posts are stored and Bob creates one more; the next list
    shows his post. *)
Lemma create_then_list_witness :
  let w1 := exec (perform_create (Sch := Schemas.newest_first) hello bob) crowded_newest in
  eval (get_queryset (Sch := Schemas.newest_first)) w1
    = Ok (recent (Sch := Schemas.newest_first) (db w1)) /\
  new_post hello 2 crowded_newest
    ∈ map row_post (recent (Sch := Schemas.newest_first) (db w1)).
Proof.
  assert (Hok : eval (perform_create (Sch := Schemas.newest_first) hello bob) crowded_newest
                = Ok tt) by (vm_compute; reflexivity).
  destruct (create_then_list (Sch := Schemas.newest_first) crowded_newest hello bob
              newest_first_most_recent_first Hok)
    as (uid & Hu & _ & _ & _ & Hq & Hin).
  injection Hu as <-. cbv zeta. split.
  - unfold eval. rewrite Hq. reflexivity.
  - exact Hin.
Defined.

(** The ordering matters.  Were the rows to come back in storage order
    instead, with twenty posts in the store (a reachable world) and a
    twenty-first created, the create succeeds, the new post is in the
    store, the key is gone, the next list queries the store, and the rows
    it returns are posts 1 to 20, without the new post 21. *)
Example storage_order_omits_new_post :
  let w1 := exec (perform_create (Sch := Schemas.storage_order) hello bob) crowded in
  reachable (Sch := Schemas.storage_order) crowded /\
  eval (perform_create (Sch := Schemas.storage_order) hello bob) crowded = Ok tt /\
  posts (db w1) = posts (db crowded) ++ [mkPost 21 2 "hello" 0] /\
  live "recent_posts" w1 = None /\
  eval (get_queryset (Sch := Schemas.storage_order)) w1
    = Ok (recent (Sch := Schemas.storage_order) (db w1)) /\
  map (fun row => post_id (row_post row)) (recent (Sch := Schemas.storage_order) (db w1))
    = [1; 2; 3; 4; 5; 6; 7; 8; 9; 10; 11; 12; 13; 14; 15; 16; 17; 18; 19; 20]%Z /\
  ~ mkPost 21 2 "hello" 0 ∈ map row_post (recent (Sch := Schemas.storage_order) (db w1)).
Proof.
  cbv zeta. split; [apply posted_reachable, reach_fresh|].
  split; [vm_compute; reflexivity|].
  split; [vm_compute; reflexivity|].
  split; [vm_compute; reflexivity|].
  split; [vm_compute; reflexivity|].
  split; [vm_compute; reflexivity|].
  apply not_in_rows_by_id. vm_compute. reflexivity.
Qed.

(** Under a newest-first ordering the same create is shown by the next
    list. *)
Example create_then_list_newest_first :
  let w := posted (Sch := Schemas.newest_first) 20 (fresh 0) in
  let w1 := exec (perform_create (Sch := Schemas.newest_first) hello bob) w in
  map (fun row => post_id (row_post row)) (recent (Sch := Schemas.newest_first) (db w1))
    = [21; 20; 19; 18; 17; 16; 15; 14; 13; 12; 11; 10; 9; 8; 7; 6; 5; 4; 3; 2]%Z.
Proof. vm_compute. reflexivity. Qed.

(** The list operation on a cold and on a warm cache. *)
Example list_cold_then_warm :
  trace (exec (get_queryset (Sch := Schemas.storage_order)) (fresh 0))
    = [CacheGet "recent_posts"; DbSelect TPost; CacheSet "recent_posts" 300] /\
  trace (exec (get_queryset (Sch := Schemas.storage_order)) warm)
    = trace warm ++ [CacheGet "recent_posts"] /\
  trace (exec (get_queryset (Sch := Schemas.storage_order)) (advance 300 warm))
    = trace warm ++ [CacheGet "recent_posts"; DbSelect TPost; CacheSet "recent_posts" 300].
Proof. repeat split; reflexivity. Qed.

(** ** The list view over time *)

Section ListOverTime.
Context {Sch : Schema}.

Lemma get_queryset_refills w :
  truthy (live "recent_posts" w) = false ->
  get_queryset w = (Ok (recent (db w)), refilled w).
Proof. intros H. unfold refilled. now apply get_queryset_cold. Qed.

Lemma live_refilled_advance w d :
  live "recent_posts" (advance d (refilled w)) =
    if (now w + d <? now w + 300)%Z then Some (recent (db w)) else None.
Proof. unfold live, advance, refilled. simpl. now rewrite lookup_insert_eq. Qed.

(** After a cache miss that found posts, a list call less than 300
    seconds later returns the same rows, and its only call is the cache
    read. *)
Theorem list_served_from_cache_within_timeout (w : World) (d : Z) :
  truthy (live "recent_posts" w) = false ->
  recent (db w) <> [] ->
  (d < 300)%Z ->
  get_queryset (advance d (exec get_queryset w)) =
    (Ok (recent (db w)),
     logged [CacheGet "recent_posts"] (advance d (exec get_queryset w))).
Proof.
  intros Hcold Hne Hd. unfold exec. rewrite (get_queryset_refills w Hcold). cbn [snd].
  apply get_queryset_warm; [|exact Hne].
  rewrite live_refilled_advance.
  destruct (Z.ltb_spec (now w + d) (now w + 300)) as [_|Hge]; [reflexivity|lia].
Qed.

(** A cache miss that found no post is not remembered: the cached empty
    sequence is falsy, so the next list call, however soon, queries the
    store again. *)
Theorem empty_list_is_never_served_from_cache (w : World) (d : Z) :
  truthy (live "recent_posts" w) = false ->
  recent (db w) = [] ->
  get_queryset (advance d (exec get_queryset w)) =
    (Ok [], refilled (advance d (exec get_queryset w))).
Proof.
  intros Hcold Hnil. unfold exec. rewrite (get_queryset_refills w Hcold). cbn [snd].
  rewrite get_queryset_refills.
  - f_equal. f_equal. exact Hnil.
  - rewrite live_refilled_advance, Hnil.
    now destruct (now w + d <? now w + 300)%Z.
Qed.

Lemma step_cache_expiring w w' :
  step w w' -> cache_expiring w -> cache_expiring w'.
Proof.
  intros Hstep Hc. destruct Hstep as [w|ser r w _ _|r pid w _|d w Hd].
  - destruct (truthy (live "recent_posts" w)) eqn:Hv.
    + destruct (live "recent_posts" w) as [[|x v]|] eqn:Hl; try discriminate.
      unfold exec. rewrite (get_queryset_warm w (x :: v) Hl) by discriminate. exact Hc.
    + unfold exec. rewrite (get_queryset_refills w Hv). intros key e. simpl.
      destruct (decide (key = "recent_posts")) as [->|Hne].
      * rewrite lookup_insert_eq. intros [= <-]. simpl. lia.
      * rewrite lookup_insert_ne by congruence. apply Hc.
  - assert (Hn : now (exec (perform_create ser r) w) = now w).
    { destruct (serializer_save_cases ser (user r) w)
        as [(uid & Hu & Hok & _)|(e & evs & Hf & _)]; unfold exec.
      - now rewrite (perform_create_saved ser r uid w Hu Hok).
      - rewrite (perform_create_failed ser r e w) by (unfold eval; now rewrite Hf).
        unfold exec. now rewrite Hf. }
    intros key e. rewrite Hn.
    destruct (perform_create_cases ser r w) as [(uid & _ & _ & Hca)|[_ Hca]];
      rewrite Hca; [|apply Hc].
    intros He. apply lookup_delete_Some in He as [_ He]. now apply (Hc key e).
  - destruct (post_frame r pid w) as (Hca & Hn & _).
    intros key e. rewrite Hca, Hn. apply Hc.
  - intros key e He. simpl in *. specialize (Hc key e He). lia.
Qed.

Lemma reachable_cache_expiring w : reachable w -> cache_expiring w.
Proof.
  induction 1 as [t|w w' _ IH Hstep].
  - intros key e. simpl. now rewrite lookup_empty.
  - now apply (step_cache_expiring w w').
Qed.

(** Whatever requests were served before, once 300 seconds have passed
    without one the list call finds no live entry: it queries the store
    and refills the cache. *)
Theorem list_requeries_after_timeout (w : World) (d : Z) :
  reachable w ->
  (300 <= d)%Z ->
  get_queryset (advance d w) = (Ok (recent (db w)), refilled (advance d w)).
Proof.
  intros Hw Hd. apply (get_queryset_refills (advance d w)).
  unfold live. simpl.
  destruct (cache w !! "recent_posts") as [e|] eqn:He; [|reflexivity].
  pose proof (reachable_cache_expiring w Hw _ _ He) as Hexp.
  destruct (Z.ltb_spec (now w + d) (entry_expires e)) as [Hlt|_]; [lia|reflexivity].
Qed.

Lemma step_cache_current w w' :
  step w w' -> cache_current w -> cache_current w'.
Proof.
  intros Hstep Hc. destruct Hstep as [w|ser r w _ _|r pid w _|d w Hd].
  - destruct (truthy (live "recent_posts" w)) eqn:Hv.
    + destruct (live "recent_posts" w) as [[|x v]|] eqn:Hl; try discriminate.
      unfold exec. rewrite (get_queryset_warm w (x :: v) Hl) by discriminate. exact Hc.
    + unfold exec. rewrite (get_queryset_refills w Hv). intros e. simpl.
      rewrite lookup_insert_eq. intros [= <-]. simpl. apply recent_posts.
  - destruct (perform_create_cases ser r w) as [(uid & _ & _ & Hca)|[Hdb Hca]];
      intros e; rewrite Hca.
    + now rewrite lookup_delete_eq.
    + rewrite Hdb. apply Hc.
  - destruct (post_frame r pid w) as (Hca & _ & _).
    assert (Hp : posts (db (exec (post r pid) w)) = posts (db w)).
    { destruct (post_toggled r pid w) as [e w1 Hdb|uid w1 _ _ _ Hdb|uid l w1 _ _ _ Hdb];
        now rewrite Hdb. }
    intros e. rewrite Hca, Hp. apply Hc.
  - exact Hc.
Qed.

Lemma reachable_cache_current w : reachable w -> cache_current w.
Proof.
  induction 1 as [t|w w' _ IH Hstep].
  - intros e. simpl. now rewrite lookup_empty.
  - now apply (step_cache_current w w').
Qed.

(** With requests served one after the other, the list never shows an
    outdated set of posts: in every reachable world, warm or cold, the
    posts it returns are the first 20 of the store's ordering as the store
    is now.  (Only the prefetched likes and comments of a row can be old.) *)
Theorem list_posts_are_current (w : World) :
  reachable w ->
  exists rows, eval get_queryset w = Ok rows /\
               map row_post rows = take 20 (ordering (posts (db w))).
Proof.
  intros Hw. pose proof (reachable_cache_current w Hw) as Hc.
  destruct (truthy (live "recent_posts" w)) eqn:Hv.
  - destruct (live "recent_posts" w) as [[|x v]|] eqn:Hl; try discriminate.
    exists (x :: v). unfold eval. rewrite (get_queryset_warm w (x :: v) Hl) by discriminate.
    split; [reflexivity|]. unfold live in Hl.
    destruct (cache w !! "recent_posts") as [e|] eqn:He; [|discriminate].
    destruct (now w <? entry_expires e)%Z; [|discriminate].
    injection Hl as <-. now apply Hc.
  - exists (recent (db w)). unfold eval. rewrite (get_queryset_refills w Hv).
    split; [reflexivity|apply recent_posts].
Qed.

End ListOverTime.

(** ** More on the like toggle *)

Section TableLemmas.
Context {A : Type} (key : A -> Z).

Lemma key_injective (l : list A) (x y : A) :
  NoDup (map key l) -> x ∈ l -> y ∈ l -> key x = key y -> x = y.
Proof.
  intros Hnd Hx Hy E.
  assert (H : x ∈ List.filter (fun z => (key z =? key y)%Z) l).
  { apply list_elem_of_In, filter_In. split; [now apply list_elem_of_In|].
    now apply Z.eqb_eq. }
  rewrite (filter_key_unique key l y Hnd Hy) in H.
  now apply list_elem_of_singleton in H.
Qed.

Lemma filter_filter_same (f g : A -> bool) (l : list A) :
  (forall x, x ∈ l -> f x = true -> g x = true) ->
  List.filter f (List.filter g l) = List.filter f l.
Proof.
  induction l as [|a l IH]; intros H; simpl; [reflexivity|].
  assert (IH' : List.filter f (List.filter g l) = List.filter f l)
    by (apply IH; intros x Hx; apply H; now right).
  destruct (g a) eqn:Hg; simpl.
  - now rewrite IH'.
  - destruct (f a) eqn:Hf; [|exact IH'].
    rewrite (H a) in Hg; [discriminate|left|exact Hf].
Qed.

(** Removing the one row with the key of [x] takes one off the count of
    any filter that [x] passes. *)
Lemma filter_remove_length (f : A -> bool) (l : list A) (x : A) :
  NoDup (map key l) -> x ∈ l -> f x = true ->
  S (length (List.filter f (List.filter (fun z => negb (key z =? key x)%Z) l)))
    = length (List.filter f l).
Proof.
  induction l as [|a l IH]; intros Hnd Hx Hf; [inversion Hx|].
  simpl in Hnd. apply NoDup_cons in Hnd as [Ha Hnd].
  apply elem_of_cons in Hx as [->|Hx]; simpl.
  - rewrite Z.eqb_refl, Hf. simpl. f_equal. f_equal.
    apply filter_filter_same. intros y Hy _.
    apply negb_true_iff, Z.eqb_neq. intros E. apply Ha. rewrite <- E.
    apply list_elem_of_fmap. eauto.
  - destruct (Z.eqb_spec (key a) (key x)) as [E|_]; simpl.
    + exfalso. apply Ha. rewrite E. apply list_elem_of_fmap. eauto.
    + destruct (f a); simpl; [f_equal|]; now apply IH.
Qed.

End TableLemmas.

Section ToggleMore.
Context {Sch : Schema}.

Lemma toggled_posts r pid w res w' :
  toggled r pid w res w' ->
  posts (db w') = posts (db w) /\ comments (db w') = comments (db w).
Proof.
  intros [e w1 Hdb|uid w1 _ _ _ Hdb|uid l w1 _ _ _ Hdb]; now rewrite Hdb.
Qed.

(** A filter that the toggled pair's records do not pass sees the same
    Like records before and after the call. *)
Lemma toggled_filter_same (f : Like -> bool) r pid w res w' :
  toggled r pid w res w' ->
  keys_ok (db w) ->
  (forall uid l, user r = AuthUser uid -> like_user l = uid -> like_post l = pid ->
                 f l = false) ->
  List.filter f (likes (db w')) = List.filter f (likes (db w)).
Proof.
  intros [e w1 Hdb|uid w1 Hu _ _ Hdb|uid l w1 Hu _ Hl Hdb] Hk Hf; rewrite Hdb; simpl.
  - reflexivity.
  - rewrite List.filter_app. simpl.
    rewrite (Hf uid (mkLike (like_seq (db w)) uid pid) Hu eq_refl eq_refl).
    apply app_nil_r.
  - apply (filter_head_inv _ _ l []) in Hl as [Hin Hm].
    apply like_matches_spec in Hm as [Hlu Hlp].
    apply filter_filter_same. intros x Hx Hfx.
    apply negb_true_iff, Z.eqb_neq. intros E.
    assert (x = l) as -> by (eapply (key_injective like_id); eauto using like_ids_nodup).
    rewrite (Hf uid l Hu Hlu Hlp) in Hfx. discriminate.
Qed.

(** A like toggle by one user on one post leaves the Like records of
    every other (user, post) pair as they were. *)
Theorem like_toggle_leaves_other_pairs (w : World) (r : Request) (pid u' pid' : Z) :
  reachable w ->
  user r <> AuthUser u' \/ pid <> pid' ->
  likes_of u' pid' (db (exec (post r pid) w)) = likes_of u' pid' (db w).
Proof.
  intros Hw Hother. destruct (reachable_inv w Hw) as [[Hk _] _].
  unfold likes_of. apply (toggled_filter_same _ r pid w _ _ (post_toggled r pid w) Hk).
  intros uid l Hu Hlu Hlp. unfold like_matches.
  destruct Hother as [Hne|Hne].
  - destruct (Z.eqb_spec (like_user l) u') as [E|_]; [|reflexivity].
    exfalso. apply Hne. rewrite Hu. congruence.
  - destruct (Z.eqb_spec (like_post l) pid') as [E|_]; [|apply andb_false_r].
    exfalso. apply Hne. congruence.
Qed.

(** The like count of a post: a call that answers [liked = true] adds
    one to the count of the toggled post, a call that answers
    [liked = false] takes one off, and the [like_set] of every other post
    is unchanged. *)
Theorem like_toggle_moves_count_by_one (w : World) (r : Request) (uid : Z) (p q : Post) :
  reachable w -> user r = AuthUser uid -> p ∈ posts (db w) ->
  (exists b, eval (post r (post_id p)) w = Ok (mkResponse b) /\
     if b
     then length (like_set (db (exec (post r (post_id p)) w)) p)
            = S (length (like_set (db w) p))
     else S (length (like_set (db (exec (post r (post_id p)) w)) p))
            = length (like_set (db w) p)) /\
  (post_id q <> post_id p ->
   like_set (db (exec (post r (post_id p)) w)) q = like_set (db w) q).
Proof.
  intros Hw Hu Hp. destruct (reachable_inv w Hw) as [[Hk Hun] _].
  pose proof (post_ids_nodup _ Hk) as Hnd. split.
  - destruct (likes_of uid (post_id p) (db w)) as [|l0 ls] eqn:Hl.
    + exists true. unfold eval, exec. rewrite (post_creates r uid p w Hu Hnd Hp Hl).
      split; [reflexivity|]. unfold like_set, with_likes. simpl.
      rewrite List.filter_app, length_app. simpl. rewrite Z.eqb_refl. simpl. lia.
    + assert (Hne : likes_of uid (post_id p) (db w) <> []) by (now rewrite Hl).
      destruct (likes_of_singleton _ _ _ Hun Hne) as [l Hl'].
      exists false. unfold eval, exec. rewrite (post_deletes r uid p l w Hu Hnd Hp Hl').
      split; [reflexivity|]. unfold like_set, with_likes. simpl.
      unfold likes_of in Hl'. apply (filter_head_inv _ _ l []) in Hl' as [Hin Hm].
      apply like_matches_spec in Hm as [_ Hlp].
      apply (filter_remove_length like_id); [apply (like_ids_nodup _ Hk)|exact Hin|].
      now apply Z.eqb_eq.
  - intros Hq. unfold like_set.
    apply (toggled_filter_same _ r (post_id p) w _ _ (post_toggled r (post_id p) w) Hk).
    intros uid' l _ _ Hlp. apply Z.eqb_neq. congruence.
Qed.

End ToggleMore.

(** ** Repeated toggles *)

Section RepeatedToggles.
Context {Sch : Schema}.

Lemma toggles_reachable n r pid w :
  IsAuthenticated r = true -> reachable w -> reachable (toggles n r pid w).
Proof.
  intros Hr Hw. induction n as [|n IH]; [exact Hw|]. simpl.
  eapply reach_step; [exact IH|]. now apply step_like.
Qed.

(** The store after [n] toggles of a pair that had no Like record: the
    posts never move, and the Like table is the initial one after an even
    number of calls and the initial one plus one record of the pair after
    an odd number. *)
Lemma toggles_store n r uid p w :
  reachable w -> user r = AuthUser uid -> p ∈ posts (db w) ->
  likes_of uid (post_id p) (db w) = [] ->
  posts (db (toggles n r (post_id p) w)) = posts (db w) /\
  if Nat.even n
  then likes (db (toggles n r (post_id p) w)) = likes (db w)
  else exists k, likes (db (toggles n r (post_id p) w))
                 = likes (db w) ++ [mkLike k uid (post_id p)].
Proof.
  intros Hw Hu Hp Hl.
  assert (Hauth : IsAuthenticated r = true) by (unfold IsAuthenticated; now rewrite Hu).
  induction n as [|n [IHp IHl]]; [now split|].
  pose proof (toggles_reachable n r (post_id p) w Hauth Hw) as Hwn.
  destruct (reachable_inv _ Hwn) as [[Hk _] _].
  pose proof (post_ids_nodup _ Hk) as Hnd.
  assert (Hpn : p ∈ posts (db (toggles n r (post_id p) w))) by (now rewrite IHp).
  rewrite Nat.even_succ, <- Nat.negb_even. cbn [toggles].
  destruct (Nat.even n); cbn [negb].
  - assert (Hln : likes_of uid (post_id p) (db (toggles n r (post_id p) w)) = [])
      by (unfold likes_of in *; now rewrite IHl).
    unfold exec. rewrite (post_creates r uid p _ Hu Hnd Hpn Hln). simpl.
    split; [exact IHp|]. rewrite IHl. eauto.
  - destruct IHl as [k IHl].
    assert (Hln : likes_of uid (post_id p) (db (toggles n r (post_id p) w))
                  = [mkLike k uid (post_id p)]).
    { unfold likes_of in *. rewrite IHl, List.filter_app, Hl. simpl.
      unfold like_matches. simpl. now rewrite !Z.eqb_refl. }
    unfold exec. rewrite (post_deletes r uid p _ _ Hu Hnd Hpn Hln). simpl.
    split; [exact IHp|]. rewrite IHl.
    apply (filter_key_fresh like_id (likes (db w)) (mkLike k uid (post_id p))).
    intros y Hy E. pose proof (like_ids_nodup _ Hk) as Hids.
    rewrite IHl, fmap_app in Hids. apply NoDup_app in Hids as (_ & Hdisj & _).
    apply (Hdisj (like_id y)).
    + apply list_elem_of_fmap. eauto.
    + rewrite E. simpl. now left.
Qed.

(** The like toggle is a toggle over any number of calls: starting from
    a pair without a Like record, call number [n + 1] answers
    [liked = true] exactly when [n] is even, and after an even number of
    calls the Like table is the initial one. *)
Theorem like_toggle_parity (n : nat) (w : World) (r : Request) (uid pid : Z) :
  reachable w -> user r = AuthUser uid -> post_exists pid (db w) ->
  likes_of uid pid (db w) = [] ->
  eval (post r pid) (toggles n r pid w) = Ok (mkResponse (Nat.even n)) /\
  (Nat.even n = true -> likes (db (toggles n r pid w)) = likes (db w)).
Proof.
  intros Hw Hu Hex Hl. apply post_exists_elim in Hex as (p & Hp & ->).
  assert (Hauth : IsAuthenticated r = true) by (unfold IsAuthenticated; now rewrite Hu).
  destruct (toggles_store n r uid p w Hw Hu Hp Hl) as [Hpn Hln].
  pose proof (toggles_reachable n r (post_id p) w Hauth Hw) as Hwn.
  destruct (reachable_inv _ Hwn) as [[Hk _] _].
  pose proof (post_ids_nodup _ Hk) as Hnd.
  assert (Hp' : p ∈ posts (db (toggles n r (post_id p) w))) by (now rewrite Hpn).
  destruct (Nat.even n).
  - split; [|intros _; exact Hln].
    unfold eval. rewrite (post_creates r uid p _ Hu Hnd Hp'); [reflexivity|].
    unfold likes_of in *. now rewrite Hln.
  - split; [|discriminate]. destruct Hln as [k Hln].
    unfold eval. rewrite (post_deletes r uid p (mkLike k uid (post_id p)) _ Hu Hnd Hp');
      [reflexivity|].
    unfold likes_of in *. rewrite Hln, List.filter_app, Hl. simpl.
    unfold like_matches. simpl. now rewrite !Z.eqb_refl.
Qed.

End RepeatedToggles.

(** ** What no request does *)

Section Frames.
Context {Sch : Schema}.

Lemma step_db_cases w w' :
  step w w' ->
  db w' = db w \/
  (exists p, db w' = with_post p (db w)) \/
  (exists r pid res, toggled r pid w res w').
Proof.
  intros [w0|ser r w0 _ _|r pid w0 _|d w0 _].
  - left. apply get_queryset_db.
  - destruct (perform_create_cases ser r w0) as [(uid & _ & Hdb & _)|[Hdb _]]; eauto.
  - right. right. exists r, pid, (eval (post r pid) w0). apply post_toggled.
  - now left.
Qed.

(** Posts and comments are never edited or removed: a request leaves the
    Post table as it was or appends one post to it, and leaves the Comment
    table as it was. *)
Theorem posts_only_grow (w w' : World) :
  step w w' ->
  (posts (db w') = posts (db w) \/ exists p, posts (db w') = posts (db w) ++ [p]) /\
  comments (db w') = comments (db w).
Proof.
  intros Hstep.
  destruct (step_db_cases w w' Hstep) as [Hdb|[(p & Hdb)|(r & pid & res & Ht)]].
  - rewrite Hdb. auto.
  - rewrite Hdb. simpl. eauto.
  - destruct (toggled_posts _ _ _ _ _ Ht) as [Hp Hc]. rewrite Hp, Hc. auto.
Qed.

Lemma post_exists_with_post pid p s :
  post_exists pid s -> post_exists pid (with_post p s).
Proof.
  intros (q & Hq & E). exists q. split; [|exact E]. simpl.
  apply elem_of_app. now left.
Qed.

Lemma step_likes_refer w w' :
  step w w' -> likes_refer (db w) -> likes_refer (db w').
Proof.
  intros Hstep Hr.
  destruct (step_db_cases w w' Hstep) as [Hdb|[(p & Hdb)|(r & pid & res & Ht)]].
  - now rewrite Hdb.
  - rewrite Hdb. unfold likes_refer in *. simpl.
    eapply Forall_impl; [exact Hr|]. intros l. apply post_exists_with_post.
  - unfold likes_refer in *.
    destruct Ht as [e w1 Hdb|uid w1 _ Hex _ Hdb|uid l w1 _ _ _ Hdb]; rewrite Hdb.
    + exact Hr.
    + simpl. apply Forall_app. split; [exact Hr|]. now apply Forall_singleton.
    + simpl. rewrite Forall_forall in *. intros x Hx. apply Hr.
      apply list_elem_of_In in Hx. apply filter_In in Hx as [Hx _].
      now apply list_elem_of_In.
Qed.

(** Every Like record refers to a stored post: the toggle looks the post
    up before it creates a Like, and no request removes a post. *)
Theorem likes_refer_to_stored_posts (w : World) :
  reachable w -> likes_refer (db w).
Proof.
  induction 1 as [t|w w' _ IH Hstep]; [constructor|].
  now apply (step_likes_refer w w').
Qed.

(** The views use one cache key: whatever the request, every other key of
    the cache is left as it was. *)
Theorem other_cache_keys_untouched (w w' : World) (key : string) :
  step w w' -> key <> "recent_posts" ->
  cache w' !! key = cache w !! key.
Proof.
  intros Hstep Hkey. destruct Hstep as [w0|ser r w0 _ _|r pid w0 _|d w0 _].
  - destruct (truthy (live "recent_posts" w0)) eqn:Hv.
    + destruct (live "recent_posts" w0) as [[|x v]|] eqn:Hl; try discriminate.
      unfold exec. now rewrite (get_queryset_warm w0 (x :: v) Hl).
    + unfold exec. rewrite (get_queryset_refills w0 Hv). simpl.
      now rewrite lookup_insert_ne by congruence.
  - destruct (perform_create_cases ser r w0) as [(uid & _ & _ & Hca)|[_ Hca]]; rewrite Hca.
    + now rewrite lookup_delete_ne by congruence.
    + reflexivity.
  - destruct (post_frame r pid w0) as (Hca & _). now rewrite Hca.
  - reflexivity.
Qed.

End Frames.

(** ** Create, like, then list *)

Section CreateLikeList.
Context {Sch : Schema}.

(** A create empties the cache key and a like toggle does not refill it:
    the first list call after a successful create queries the store even
    when like toggles were served in between, so it shows their effect. *)
Theorem list_after_create_and_like_is_fresh
    (w : World) (ser : PostSerializer) (r r' : Request) (pid : Z) :
  eval (perform_create ser r) w = Ok tt ->
  get_queryset (exec (post r' pid) (exec (perform_create ser r) w)) =
    (Ok (recent (db (exec (post r' pid) (exec (perform_create ser r) w)))),
     refilled (exec (post r' pid) (exec (perform_create ser r) w))).
Proof.
  intros Hok. destruct (perform_create_ok_inv ser r w Hok) as (uid & Hu & Hacc).
  apply get_queryset_refills.
  destruct (post_frame r' pid (exec (perform_create ser r) w)) as (Hca & _).
  unfold live. rewrite Hca. unfold exec at 1.
  rewrite (perform_create_saved ser r uid w Hu Hacc). simpl.
  now rewrite lookup_delete_eq.
Qed.

End CreateLikeList.

(** The theorems of the last sections, at concrete worlds. *)

Lemma list_served_from_cache_within_timeout_witness :
  get_queryset (Sch := Schemas.storage_order)
      (advance 299 (exec (get_queryset (Sch := Schemas.storage_order)) one_post)) =
    (Ok (recent (Sch := Schemas.storage_order) (db one_post)),
     logged [CacheGet "recent_posts"]
            (advance 299 (exec (get_queryset (Sch := Schemas.storage_order)) one_post))).
Proof.
  apply (list_served_from_cache_within_timeout (Sch := Schemas.storage_order) one_post 299).
  - reflexivity.
  - discriminate.
  - lia.
Defined.

Lemma empty_list_is_never_served_from_cache_witness :
  get_queryset (Sch := Schemas.storage_order)
      (advance 0 (exec (get_queryset (Sch := Schemas.storage_order)) (fresh 0))) =
    (Ok [],
     refilled (Sch := Schemas.storage_order)
       (advance 0 (exec (get_queryset (Sch := Schemas.storage_order)) (fresh 0)))).
Proof.
  apply (empty_list_is_never_served_from_cache (Sch := Schemas.storage_order) (fresh 0) 0);
    reflexivity.
Defined.

Lemma list_requeries_after_timeout_witness :
  get_queryset (Sch := Schemas.storage_order) (advance 300 warm) =
    (Ok (recent (Sch := Schemas.storage_order) (db warm)),
     refilled (Sch := Schemas.storage_order) (advance 300 warm)).
Proof.
  apply (list_requeries_after_timeout (Sch := Schemas.storage_order) warm 300).
  - exact warm_reachable.
  - lia.
Defined.

Lemma list_posts_are_current_witness :
  exists rows,
    eval (get_queryset (Sch := Schemas.storage_order)) warm = Ok rows /\
    map row_post rows = take 20 (posts (db warm)).
Proof.
  exact (list_posts_are_current (Sch := Schemas.storage_order) warm warm_reachable).
Defined.

(** Alice likes and Bob's like stays. *)
Lemma like_toggle_leaves_other_pairs_witness :
  likes_of 2 1 (db (exec (post alice 1) one_like)) = likes_of 2 1 (db one_like).
Proof.
  apply (like_toggle_leaves_other_pairs (Sch := Schemas.storage_order) one_like alice 1 2 1).
  - exact one_like_reachable.
  - left. discriminate.
Defined.

Lemma like_toggle_moves_count_by_one_witness :
  let p := mkPost 1 1 "hello" 0 in
  let q := mkPost 2 2 "other" 0 in
  (exists b, eval (post alice (post_id p)) one_like = Ok (mkResponse b) /\
     if b
     then length (like_set (db (exec (post alice (post_id p)) one_like)) p)
            = S (length (like_set (db one_like) p))
     else S (length (like_set (db (exec (post alice (post_id p)) one_like)) p))
            = length (like_set (db one_like) p)) /\
  (post_id q <> post_id p ->
   like_set (db (exec (post alice (post_id p)) one_like)) q = like_set (db one_like) q).
Proof.
  apply (like_toggle_moves_count_by_one (Sch := Schemas.storage_order) one_like alice 1
           (mkPost 1 1 "hello" 0) (mkPost 2 2 "other" 0)).
  - exact one_like_reachable.
  - reflexivity.
  - apply list_elem_of_In. left. reflexivity.
Defined.

Lemma like_toggle_parity_witness :
  eval (post bob 1) (toggles 3 bob 1 one_post) = Ok (mkResponse (Nat.even 3)) /\
  (Nat.even 3 = true -> likes (db (toggles 3 bob 1 one_post)) = likes (db one_post)).
Proof.
  apply (like_toggle_parity (Sch := Schemas.storage_order) 3 one_post bob 2 1).
  - exact one_post_reachable.
  - reflexivity.
  - exact one_post_exists.
  - reflexivity.
Defined.

Lemma posts_only_grow_witness :
  let w' := exec (perform_create (Sch := Schemas.storage_order) hello bob) one_post in
  (posts (db w') = posts (db one_post) \/ exists p, posts (db w') = posts (db one_post) ++ [p]) /\
  comments (db w') = comments (db one_post).
Proof.
  apply (posts_only_grow (Sch := Schemas.storage_order) one_post).
  apply step_create; reflexivity.
Defined.

Lemma likes_refer_to_stored_posts_witness : likes_refer (db one_like).
Proof.
  exact (likes_refer_to_stored_posts (Sch := Schemas.storage_order) one_like
           one_like_reachable).
Defined.

Lemma other_cache_keys_untouched_witness :
  cache (exec (get_queryset (Sch := Schemas.storage_order)) one_post) !! "profile"
    = cache one_post !! "profile".
Proof.
  apply (other_cache_keys_untouched (Sch := Schemas.storage_order) one_post).
  - apply step_list.
  - discriminate.
Defined.

Lemma list_after_create_and_like_is_fresh_witness :
  let w2 := exec (post bob 1) (exec (perform_create (Sch := Schemas.storage_order) hello alice)
                                    (fresh 0)) in
  get_queryset (Sch := Schemas.storage_order) w2 =
    (Ok (recent (Sch := Schemas.storage_order) (db w2)),
     refilled (Sch := Schemas.storage_order) w2).
Proof.
  apply (list_after_create_and_like_is_fresh (Sch := Schemas.storage_order)
           (fresh 0) hello alice bob 1).
  reflexivity.
Defined.

(** The like made before the first list after a create is in the rows of
    that list. *)
Example fresh_list_shows_like :
  eval (get_queryset (Sch := Schemas.storage_order)) one_like
    = Ok [mkPostRow (mkPost 1 1 "hello" 0) [mkLike 1 2 1] []].
Proof. reflexivity. Qed.
